(** * calculator.py: the whitelist evaluator

    A shallow embedding of [_safe_eval] and [evaluate] of [calculator.py],
    together with the three module-level whitelist tables, and the
    properties of the evaluator that the specification states.

    The program is read as CPython 3.8 to 3.13 runs it: every literal is
    an [ast.Constant], [isinstance(node, ast.Str)] holds exactly for the
    constants whose value is a [str], and the [ast.Num] branch of
    [_safe_eval] is never reached, the [ast.Constant] branch before it
    taking every number.  The interpreter's recursion and memory limits
    are not modelled.

    Layout:
    - the syntax tree of Python's [ast] module, restricted to expressions;
    - Python values, exceptions, and the arithmetic of [int], [bool] and
      [float] ([float] is IEEE 754 binary64, taken from [SpecFloat]);
    - a small monad threading the module globals, which a computation can
      read and rebind, and recording every call of a function taken from
      the tables;
    - the evaluator, parameterised by the parts of the host that are not
      this repository's code (the parser, the C math library);
    - a reference host with an executable parser for the arithmetic
      fragment of Python's expression grammar;
    - the properties. *)

From Stdlib Require Import ZArith String Ascii List Lia SpecFloat.
From stdpp Require Import base gmap strings list.

Open Scope Z_scope.
Set Warnings "-register-all".

(** ** Syntax trees ([ast]) *)

(** [ast.operator], in the order of Python's abstract grammar. *)
Inductive operator :=
| Add | Sub | Mult | MatMult | Div | Mod | Pow
| LShift | RShift | BitOr | BitXor | BitAnd | FloorDiv.

(** [ast.unaryop]. *)
Inductive unaryop := Invert | Not | UAdd | USub.

Inductive boolop := And | Or.

Inductive cmpop := Eq_ | NotEq | Lt_ | LtE | Gt_ | GtE | Is | IsNot | In_ | NotIn.

(** Python floats are IEEE 754 binary64. *)
Definition float := spec_float.
Definition prec : Z := 53.
Definition emax : Z := 1024.

(** The payload of an [ast.Constant]. *)
Inductive constant :=
| CInt (n : Z)
| CFloat (f : float)
| CBool (b : bool)
| CStr (s : string)
| CBytes (s : string)
| CComplex (im : float)
| CNone
| CEllipsis.

(** Expression nodes.  [keyword] is an [ast.AST] subclass of its own
    (the entries of [Call.keywords]); [OtherNode] stands for every node
    class the evaluator has no branch for and that is none of the classes
    above (lists, dictionaries, conditional expressions, lambdas, starred
    arguments, ...), with its child nodes in field order.  The childless
    operator and context nodes ([ast.Add()], [ast.Load()], ...) are kept
    as plain enumerations: no check of the evaluator ever matches them. *)
Inductive node :=
| Expression (body : node)
| Constant (value : constant)
| BinOp (left : node) (op : operator) (right : node)
| UnaryOp (op : unaryop) (operand : node)
| Call (func : node) (args : list node) (keywords : list node)
| keyword (arg : option string) (value : node)
| Name (id : string)
| Tuple (elts : list node)
| Attribute (value : node) (attr : string)
| Subscript (value : node) (slice : node)
| Compare (left : node) (ops : list cmpop) (comparators : list node)
| BoolOp (op : boolop) (values : list node)
| OtherNode (cls : string) (children : list node).

(** [op_type.__name__]. *)
Definition operator_name (op : operator) : string :=
  match op with
  | Add => "Add" | Sub => "Sub" | Mult => "Mult" | MatMult => "MatMult"
  | Div => "Div" | Mod => "Mod" | Pow => "Pow" | LShift => "LShift"
  | RShift => "RShift" | BitOr => "BitOr" | BitXor => "BitXor"
  | BitAnd => "BitAnd" | FloorDiv => "FloorDiv"
  end.

Definition unaryop_name (op : unaryop) : string :=
  match op with
  | Invert => "Invert" | Not => "Not" | UAdd => "UAdd" | USub => "USub"
  end.

(** The operator classes key two of the tables: they must be countable. *)
Definition operator_index (op : operator) : nat :=
  match op with
  | Add => 0 | Sub => 1 | Mult => 2 | MatMult => 3 | Div => 4 | Mod => 5
  | Pow => 6 | LShift => 7 | RShift => 8 | BitOr => 9 | BitXor => 10
  | BitAnd => 11 | FloorDiv => 12
  end%nat.

Definition operator_of_index (i : nat) : operator :=
  match i with
  | 0 => Add | 1 => Sub | 2 => Mult | 3 => MatMult | 4 => Div | 5 => Mod
  | 6 => Pow | 7 => LShift | 8 => RShift | 9 => BitOr | 10 => BitXor
  | 11 => BitAnd | _ => FloorDiv
  end%nat.

#[global] Instance operator_eq_dec : EqDecision operator.
Proof. solve_decision. Defined.

#[global] Instance operator_countable : Countable operator.
Proof.
  apply (inj_countable' operator_index operator_of_index).
  intros []; reflexivity.
Defined.

Definition unaryop_index (op : unaryop) : nat :=
  match op with Invert => 0 | Not => 1 | UAdd => 2 | USub => 3 end%nat.

Definition unaryop_of_index (i : nat) : unaryop :=
  match i with 0 => Invert | 1 => Not | 2 => UAdd | _ => USub end%nat.

#[global] Instance unaryop_eq_dec : EqDecision unaryop.
Proof. solve_decision. Defined.

#[global] Instance unaryop_countable : Countable unaryop.
Proof.
  apply (inj_countable' unaryop_index unaryop_of_index).
  intros []; reflexivity.
Defined.

(** ** Values and exceptions *)

(** The function objects stored in the tables: the seven binary and two
    unary functions of the [operator] module, the functions taken from
    [math] by name, and the builtins [abs] and [round]. *)
Inductive builtin :=
| operator_add | operator_sub | operator_mul | operator_truediv
| operator_floordiv | operator_mod | operator_pow
| operator_pos | operator_neg
| math_function (name : string)
| builtins_abs | builtins_round.

(** What [_safe_eval] can return.  [bool] is kept apart from [int]
    because [True] prints as [True]; arithmetic treats it as 0 or 1.
    Complex numbers only arise from [**] (a negative base with a
    fractional exponent). *)
Inductive value :=
| VInt (n : Z)
| VBool (b : bool)
| VFloat (f : float)
| VComplex (re im : float)
| VTuple (items : list value)
| VBuiltin (f : builtin).

(** The exception classes that can leave [evaluate].  Only [ValueError]
    carries its message: it is the class the evaluator raises itself, and
    the message tells its rejections apart; the host raises it as well
    (the math library outside the domain of a function, [ast.parse] on a
    NUL character).  The other three are raised by the host's arithmetic
    and conversions, never by the evaluator. *)
Inductive exn :=
| ValueError (msg : string)
| ZeroDivisionError
| OverflowError
| TypeError.

Inductive outcome (A : Type) :=
| Return (a : A)
| Raise (e : exn).
Arguments Return {A} a.
Arguments Raise {A} e.

(** ** The module globals and the evaluation monad *)

Record globals := Globals {
  _ALLOWED_BINOPS : gmap operator builtin;
  _ALLOWED_UNARYOPS : gmap unaryop builtin;
  _ALLOWED_NAMES : gmap string value
}.

(** One call of a function object taken from one of the three tables,
    with the arguments it was given: the calls of lines 87, 95, 112 and
    113 of [_safe_eval]. *)
Record event := Invoked { callee : value; arguments : list value }.

(** A finished computation: its outcome, the table functions it called
    (in order), and the module globals it leaves behind. *)
Record run (A : Type) := Run {
  result : outcome A;
  invoked : list event;
  after : globals
}.
Arguments Run {A} result invoked after.
Arguments result {A} r.
Arguments invoked {A} r.
Arguments after {A} r.

Definition M (A : Type) : Type := globals -> run A.

Definition ret {A} (a : A) : M A := fun g => Run (Return a) [] g.

Definition raise {A} (e : exn) : M A := fun g => Run (Raise e) [] g.

Definition lift {A} (o : outcome A) : M A := fun g => Run o [] g.

Definition bind {A B} (m : M A) (k : A -> M B) : M B :=
  fun g =>
    let r := m g in
    match result r with
    | Return a =>
        let r' := k a (after r) in
        Run (result r') (invoked r ++ invoked r') (after r')
    | Raise e => Run (Raise e) (invoked r) (after r)
    end.

(** Reading the module globals. *)
Definition read_globals : M globals := fun g => Run (Return g) [] g.

(** Rebinding the module globals: what an assignment to one of the three
    names does, and what a method that changes one of the dictionaries
    in place ([update], [__setitem__], [pop], ...) amounts to. *)
Definition write_globals (g' : globals) : M unit :=
  fun _ => Run (Return tt) [] g'.

(** Recording a call of a table function. *)
Definition invoke (f : value) (args : list value) : M unit :=
  fun g => Run (Return tt) [Invoked f args] g.

Notation "x <- c1 ;; c2" := (bind c1 (fun x => c2))
  (at level 100, c1 at next level, right associativity).

(** A list comprehension [[f(x) for x in l]]: left to right, the first
    exception ends it. *)
Definition mapM {A B} (f : A -> M B) : list A -> M (list B) :=
  fix go (l : list A) : M (list B) :=
    match l with
    | [] => ret []
    | x :: l' => y <- f x ;; ys <- go l' ;; ret (y :: ys)
    end.

(** ** Numbers *)

(** [float(n)] for an [int] ([PyLong_AsDouble]): the nearest binary64,
    ties to even; [None] stands for [OverflowError] ("int too large to
    convert to float"). *)
Definition float_of_int (n : Z) : option float :=
  match binary_normalize prec emax n 0 false with
  | S754_infinity _ => None
  | f => Some f
  end.

(** [x == 0.0]. *)
Definition float_is_zero (f : float) : bool :=
  match f with S754_zero _ => true | _ => false end.

(** [float.is_integer]. *)
Definition is_integer (f : float) : bool :=
  match f with
  | S754_zero _ => true
  | S754_finite _ m e => (0 <=? e) || (Z.pos m mod 2 ^ (- e) =? 0)
  | _ => false
  end.

(** [x < 0] for a float [x]. *)
Definition float_negative (f : float) : bool :=
  SFltb f (S754_zero false).

(** [int(x)] for a float: truncation; infinities and NaN raise. *)
Definition int_of_float (f : float) : outcome Z :=
  match f with
  | S754_zero _ => Return 0
  | S754_finite s m e =>
      Return (cond_Zopp s (if 0 <=? e then Z.pos m * 2 ^ e
                           else Z.pos m / 2 ^ (- e)))
  | S754_infinity _ => Raise OverflowError
  | S754_nan => Raise (ValueError "cannot convert float NaN to integer")
  end.

(** [math.pi], [math.e], [math.tau], [math.inf], [math.nan]. *)
Definition math_pi : float := S754_finite false 7074237752028440 (-51).
Definition math_e : float := S754_finite false 6121026514868073 (-51).
Definition math_tau : float := S754_finite false 7074237752028440 (-50).
Definition math_inf : float := S754_infinity false.
Definition math_nan : float := S754_nan.

(** The real numbers among the values: [int] (with [bool], its subclass)
    and [float]. *)
Inductive number :=
| NInt (n : Z)
| NFloat (f : float).

Definition number_of (v : value) : option number :=
  match v with
  | VInt n => Some (NInt n)
  | VBool b => Some (NInt (if b then 1 else 0))
  | VFloat f => Some (NFloat f)
  | _ => None
  end.

(** The seven arithmetic operations of the [operator] module. *)
Inductive arith := add | sub | mul | truediv | floordiv | mod_ | pow.

(** ** The host

    What the program uses and does not define.  [ast_parse] is
    [ast.parse(text, mode='eval')]: it returns a tree or raises, a
    [SyntaxError] for a text outside the grammar and, for some texts,
    another exception (a [ValueError] for a NUL character up to Python
    3.11).  [ast_dump] is [ast.dump].  The rest is
    the part of Python's arithmetic that rests on the platform's C
    library or lies outside the numbers: each field is only ever applied
    where the comment says. *)
Inductive parse_result :=
| Parsed (tree : node)
| SyntaxError (detail : string)      (* [SyntaxError] or a subclass of it *)
| ParseFault (e : exn).              (* any other exception *)

Record Host := {
  ast_parse : string -> parse_result;
  ast_dump : node -> string;
  (* [x // y] and [x % y] for two floats, [y] not zero *)
  float_floor_div : float -> float -> float;
  float_rem : float -> float -> float;
  (* [x ** y] for two floats: a float, a complex, ZeroDivisionError or
     OverflowError *)
  float_pow : float -> float -> outcome value;
  (* a binary or unary operator where an operand is a tuple, a function
     object or a complex number *)
  object_binop : arith -> value -> value -> outcome value;
  object_unaryop : bool -> value -> outcome value;
  (* calling [abs], [round] or a function of [math] other than through
     the factorial branch *)
  call_function : builtin -> list value -> outcome value;
  (* the largest C long: [math.factorial] refuses larger arguments *)
  LONG_MAX : Z
}.

Section Evaluator.

Context (H : Host).

(** *** Arithmetic *)

Definition to_float (x : number) : outcome float :=
  match x with
  | NFloat f => Return f
  | NInt n =>
      match float_of_int n with
      | Some f => Return f
      | None => Raise OverflowError
      end
  end.

(** [i / j] for two ints, [j] not zero ([long_true_divide]): the exact
    quotient rounded once to the nearest binary64; a quotient beyond the
    largest float raises OverflowError. *)
Definition int_true_divide (i j : Z) : outcome value :=
  match i, j with
  | _, Z0 => Raise ZeroDivisionError
  | Z0, _ => Return (VFloat (S754_zero (j <? 0)))
  | _, _ =>
      match SFdiv prec emax
              (S754_finite (i <? 0) (Z.to_pos (Z.abs i)) 0)
              (S754_finite (j <? 0) (Z.to_pos (Z.abs j)) 0) with
      | S754_infinity _ => Raise OverflowError
      | q => Return (VFloat q)
      end
  end.

Definition float_arith (k : arith) (x y : float) : outcome value :=
  match k with
  | add => Return (VFloat (SFadd prec emax x y))
  | sub => Return (VFloat (SFsub prec emax x y))
  | mul => Return (VFloat (SFmul prec emax x y))
  | truediv =>
      if float_is_zero y then Raise ZeroDivisionError
      else Return (VFloat (SFdiv prec emax x y))
  | floordiv =>
      if float_is_zero y then Raise ZeroDivisionError
      else Return (VFloat (float_floor_div H x y))
  | mod_ =>
      if float_is_zero y then Raise ZeroDivisionError
      else Return (VFloat (float_rem H x y))
  | pow => float_pow H x y
  end.

(** Both operands are converted, the left one first, before the
    operation looks at either. *)
Definition mixed_arith (k : arith) (x y : number) : outcome value :=
  match to_float x with
  | Raise e => Raise e
  | Return fx =>
      match to_float y with
      | Raise e => Raise e
      | Return fy => float_arith k fx fy
      end
  end.

(** Integer division rounds toward minus infinity and the remainder takes
    the sign of the divisor, which is what [Z.div] and [Z.modulo] do.  A
    negative exponent makes [**] a float power. *)
Definition int_arith (k : arith) (i j : Z) : outcome value :=
  match k with
  | add => Return (VInt (i + j))
  | sub => Return (VInt (i - j))
  | mul => Return (VInt (i * j))
  | truediv =>
      if j =? 0 then Raise ZeroDivisionError else int_true_divide i j
  | floordiv =>
      if j =? 0 then Raise ZeroDivisionError else Return (VInt (i / j))
  | mod_ =>
      if j =? 0 then Raise ZeroDivisionError else Return (VInt (i mod j))
  | pow =>
      if 0 <=? j then Return (VInt (i ^ j))
      else mixed_arith pow (NInt i) (NInt j)
  end.

Definition number_arith (k : arith) (x y : number) : outcome value :=
  match x, y with
  | NInt i, NInt j => int_arith k i j
  | _, _ => mixed_arith k x y
  end.

(** [a + b], [a - b], ... as Python computes them. *)
Definition py_arith (k : arith) (a b : value) : outcome value :=
  match number_of a, number_of b with
  | Some x, Some y => number_arith k x y
  | _, _ => object_binop H k a b
  end.

(** [+a] ([negate = false]) and [-a] ([negate = true]). *)
Definition py_unary (negate : bool) (a : value) : outcome value :=
  match number_of a with
  | Some (NInt n) => Return (VInt (if negate then - n else n))
  | Some (NFloat f) => Return (VFloat (if negate then SFopp f else f))
  | None => object_unaryop H negate a
  end.

(** [math.factorial(n)] for an int [n]. *)
Definition math_factorial (n : Z) : outcome value :=
  if n <? 0 then
    Raise (ValueError "factorial() not defined for negative values")
  else if LONG_MAX H <? n then Raise OverflowError
  else Return (VInt (Z.of_nat (fact (Z.to_nat n)))).

(** Calling the function object [f] on the argument list [args]. *)
Definition call (f : builtin) (args : list value) : outcome value :=
  match f, args with
  | operator_add, [a; b] => py_arith add a b
  | operator_sub, [a; b] => py_arith sub a b
  | operator_mul, [a; b] => py_arith mul a b
  | operator_truediv, [a; b] => py_arith truediv a b
  | operator_floordiv, [a; b] => py_arith floordiv a b
  | operator_mod, [a; b] => py_arith mod_ a b
  | operator_pow, [a; b] => py_arith pow a b
  | operator_pos, [a] => py_unary false a
  | operator_neg, [a] => py_unary true a
  | (math_function _ | builtins_abs | builtins_round), _ =>
      call_function H f args
  | _, _ => Raise TypeError
  end.

(** [float(v)]. *)
Definition py_float (v : value) : outcome float :=
  match number_of v with
  | Some x => to_float x
  | None => Raise TypeError
  end.

(** [v < 0]. *)
Definition py_negative (v : value) : outcome bool :=
  match number_of v with
  | Some (NInt n) => Return (n <? 0)
  | Some (NFloat f) => Return (float_negative f)
  | None => Raise TypeError
  end.

(** [int(v)]. *)
Definition py_int (v : value) : outcome Z :=
  match number_of v with
  | Some (NInt n) => Return n
  | Some (NFloat f) => int_of_float f
  | None => Raise TypeError
  end.

(** [callable(v)]. *)
Definition callable (v : value) : bool :=
  match v with VBuiltin _ => true | _ => false end.

(** *** [_safe_eval] *)

(** [type(node.value)] as the message shows it. *)
Definition type_repr (c : constant) : string :=
  match c with
  | CInt _ => "<class 'int'>"
  | CFloat _ => "<class 'float'>"
  | CBool _ => "<class 'bool'>"
  | CStr _ => "<class 'str'>"
  | CBytes _ => "<class 'bytes'>"
  | CComplex _ => "<class 'complex'>"
  | CNone => "<class 'NoneType'>"
  | CEllipsis => "<class 'ellipsis'>"
  end.

(** Calling a value of the names table. *)
Definition call_value (func : value) (args : list value) : outcome value :=
  match func with
  | VBuiltin f => call f args
  | _ => Raise TypeError
  end.

Definition factorial_message : string :=
  "factorial() requires a single non-negative integer".

(** Lines 109 to 112: the checks on the arguments of [factorial], in the
    order of the [or] chain, then the call of [math.factorial]. *)
Definition factorial_branch (args : list value) : M value :=
  match args with
  | [a] =>
      f <- lift (py_float a) ;;
      if negb (is_integer f) then raise (ValueError factorial_message)
      else
        negative <- lift (py_negative a) ;;
        if negative : bool then raise (ValueError factorial_message)
        else
          n <- lift (py_int a) ;;
          _ <- invoke (VBuiltin (math_function "factorial")) [VInt n] ;;
          lift (math_factorial n)
  | _ => raise (ValueError factorial_message)
  end.

(** The branches follow the [isinstance] chain of the source.  The
    [ast.Num] branch is absent: since Python 3.8 every number literal is
    an [ast.Constant], which the branch before it takes. *)
Fixpoint _safe_eval (n : node) : M value :=
  match n with
  | Expression body => _safe_eval body
  | Constant value =>
      match value with
      | CInt i => ret (VInt i)
      | CBool b => ret (VBool b)
      | CFloat f => ret (VFloat f)
      | _ =>
          raise (ValueError ("Constants of type " +:+ type_repr value
                             +:+ " are not allowed"))
      end
  | BinOp l op r =>
      g <- read_globals ;;
      match _ALLOWED_BINOPS g !! op with
      | None =>
          raise (ValueError ("Binary operator " +:+ operator_name op
                             +:+ " is not allowed"))
      | Some func =>
          a <- _safe_eval l ;;
          b <- _safe_eval r ;;
          _ <- invoke (VBuiltin func) [a; b] ;;
          lift (call func [a; b])
      end
  | UnaryOp op operand =>
      g <- read_globals ;;
      match _ALLOWED_UNARYOPS g !! op with
      | None =>
          raise (ValueError ("Unary operator " +:+ unaryop_name op
                             +:+ " is not allowed"))
      | Some func =>
          v <- _safe_eval operand ;;
          _ <- invoke (VBuiltin func) [v] ;;
          lift (call func [v])
      end
  | Call func args keywords =>
      match func with
      | Name func_name =>
          g <- read_globals ;;
          match _ALLOWED_NAMES g !! func_name with
          | None =>
              raise (ValueError ("Function '" +:+ func_name
                                 +:+ "' is not allowed"))
          | Some func =>
              if negb (callable func) then
                raise (ValueError ("Function '" +:+ func_name
                                   +:+ "' is not allowed"))
              else
                vs <- mapM _safe_eval args ;;
                match keywords with
                | _ :: _ =>
                    raise (ValueError "Keyword arguments are not supported")
                | [] =>
                    if String.eqb func_name "factorial" then
                      factorial_branch vs
                    else
                      _ <- invoke func vs ;;
                      lift (call_value func vs)
                end
          end
      | _ => raise (ValueError "Only direct function calls are allowed")
      end
  | Name id =>
      g <- read_globals ;;
      match _ALLOWED_NAMES g !! id with
      | None => raise (ValueError ("Name '" +:+ id +:+ "' is not allowed"))
      | Some val => ret val
      end
  | Tuple elts =>
      vs <- mapM _safe_eval elts ;;
      ret (VTuple vs)
  | _ => raise (ValueError ("Unsupported expression: " +:+ ast_dump H n))
  end.

(** *** [ast.walk] and [evaluate] *)

(** [ast.iter_child_nodes]: the child nodes, in field order. *)
Definition iter_child_nodes (n : node) : list node :=
  match n with
  | Expression body => [body]
  | Constant _ => []
  | BinOp l _ r => [l; r]
  | UnaryOp _ operand => [operand]
  | Call func args keywords => func :: args ++ keywords
  | keyword _ value => [value]
  | Name _ => []
  | Tuple elts => elts
  | Attribute value _ => [value]
  | Subscript value slice => [value; slice]
  | Compare l _ comparators => l :: comparators
  | BoolOp _ values => values
  | OtherNode _ children => children
  end.

Fixpoint node_size (n : node) : nat :=
  let sizes := fix sizes (l : list node) : nat :=
    match l with
    | [] => O
    | x :: l' => (node_size x + sizes l')%nat
    end in
  match n with
  | Expression body => S (node_size body)
  | Constant _ => 1%nat
  | BinOp l _ r => S (node_size l + node_size r)
  | UnaryOp _ operand => S (node_size operand)
  | Call func args keywords =>
      S (node_size func + (sizes args + sizes keywords))
  | keyword _ value => S (node_size value)
  | Name _ => 1%nat
  | Tuple elts => S (sizes elts)
  | Attribute value _ => S (node_size value)
  | Subscript value slice => S (node_size value + node_size slice)
  | Compare l _ comparators => S (node_size l + sizes comparators)
  | BoolOp _ values => S (sizes values)
  | OtherNode _ children => S (sizes children)
  end.

(** The loop of [ast.walk]: pop the first node of the queue, append its
    children, yield it.  Every turn yields one node, so [fuel] bounds the
    number of nodes yielded. *)
Fixpoint walk_queue (fuel : nat) (todo : list node) : list node :=
  match fuel, todo with
  | S fuel', n :: rest => n :: walk_queue fuel' (rest ++ iter_child_nodes n)
  | _, _ => []
  end.

(** [ast.walk(tree)]: breadth first, with fuel for the whole tree. *)
Definition walk (tree : node) : list node :=
  walk_queue (node_size tree) [tree].

(** [isinstance(node, ast.Str)]: a constant whose value is a [str]. *)
Definition is_Str (n : node) : bool :=
  match n with Constant (CStr _) => true | _ => false end.

Definition is_Attribute (n : node) : bool :=
  match n with Attribute _ _ => true | _ => false end.

Definition is_Subscript (n : node) : bool :=
  match n with Subscript _ _ => true | _ => false end.

(** The [for] loop of [evaluate] over the nodes that [ast.walk] yields. *)
Fixpoint disallow (nodes : list node) : M unit :=
  match nodes with
  | [] => ret tt
  | n :: rest =>
      if is_Attribute n then
        raise (ValueError "Attribute access is not allowed")
      else if is_Subscript n then
        raise (ValueError "Subscription is not allowed")
      else if is_Str n then
        raise (ValueError "String literals are not allowed")
      else disallow rest
  end.

Definition evaluate (expr : string) : M value :=
  match ast_parse H expr with
  | SyntaxError e => raise (ValueError ("Syntax error: " +:+ e))
  | ParseFault e => raise e
  | Parsed tree =>
      _ <- disallow (walk tree) ;;
      _safe_eval tree
  end.

End Evaluator.

(** ** The tables, as the module builds them *)

Definition getattr_math (k : string) : value :=
  if String.eqb k "pi" then VFloat math_pi
  else if String.eqb k "e" then VFloat math_e
  else if String.eqb k "tau" then VFloat math_tau
  else if String.eqb k "inf" then VFloat math_inf
  else if String.eqb k "nan" then VFloat math_nan
  else VBuiltin (math_function k).

(** The module body, lines 30 to 58: three assignments, then
    [_ALLOWED_NAMES.update({'abs': abs, 'round': round})] on the
    dictionary that the third one built. *)
Definition module_body : M unit :=
  g <- read_globals ;;
  _ <- write_globals {|
    _ALLOWED_BINOPS :=
      list_to_map [
        (Add, operator_add);
        (Sub, operator_sub);
        (Mult, operator_mul);
        (Div, operator_truediv);
        (FloorDiv, operator_floordiv);
        (Mod, operator_mod);
        (Pow, operator_pow)
      ];
    _ALLOWED_UNARYOPS := _ALLOWED_UNARYOPS g;
    _ALLOWED_NAMES := _ALLOWED_NAMES g
  |} ;;
  g <- read_globals ;;
  _ <- write_globals {|
    _ALLOWED_BINOPS := _ALLOWED_BINOPS g;
    _ALLOWED_UNARYOPS :=
      list_to_map [
        (UAdd, operator_pos);
        (USub, operator_neg)
      ];
    _ALLOWED_NAMES := _ALLOWED_NAMES g
  |} ;;
  g <- read_globals ;;
  _ <- write_globals {|
    _ALLOWED_BINOPS := _ALLOWED_BINOPS g;
    _ALLOWED_UNARYOPS := _ALLOWED_UNARYOPS g;
    _ALLOWED_NAMES :=
      list_to_map ((fun k => (k, getattr_math k)) <$> [
        "sin"; "cos"; "tan"; "asin"; "acos"; "atan"; "atan2";
        "sinh"; "cosh"; "tanh";
        "degrees"; "radians";
        "sqrt"; "log"; "log10"; "exp"; "pow"; "hypot";
        "pi"; "e"; "tau"; "inf"; "nan";
        "factorial"
      ])
  |} ;;
  g <- read_globals ;;
  write_globals {|
    _ALLOWED_BINOPS := _ALLOWED_BINOPS g;
    _ALLOWED_UNARYOPS := _ALLOWED_UNARYOPS g;
    _ALLOWED_NAMES :=
      <["round" := VBuiltin builtins_round]>
        (<["abs" := VBuiltin builtins_abs]> (_ALLOWED_NAMES g))
  |}.

(** The namespace before the module body has run: none of the three
    names is bound, which empty tables stand for. *)
Definition unbound : globals := {|
  _ALLOWED_BINOPS := ∅;
  _ALLOWED_UNARYOPS := ∅;
  _ALLOWED_NAMES := ∅
|}.

(** The three tables once the module is loaded. *)
Definition module_globals : globals := after (module_body unbound).

(** ** The shell: [repl] and the command line

    The two callers of [evaluate].  What they print goes through the
    host's [str()], which is the only host function they add: it can
    raise (an int of more than 4300 digits does, in current CPython).
    The lines of the terminal are ASCII text here: [str.strip] and
    [str.lower] act on the ASCII white space and letters. *)
Record Console := {
  (* [str(v)], as [print(v)] and an f-string field compute it *)
  str_value : value -> outcome string
}.

(** [c.isspace()] for an ASCII character. *)
Definition is_space (c : ascii) : bool :=
  let n := nat_of_ascii c in
  (((9 <=? n) && (n <=? 13)) || ((28 <=? n) && (n <=? 32)))%nat.

Fixpoint lstrip_chars (l : list ascii) : list ascii :=
  match l with
  | c :: l' => if is_space c then lstrip_chars l' else l
  | [] => []
  end.

Definition strip_chars (l : list ascii) : list ascii :=
  rev (lstrip_chars (rev (lstrip_chars l))).

(** [s.strip()]. *)
Definition strip (s : string) : string :=
  string_of_list_ascii (strip_chars (list_ascii_of_string s)).

Definition lower_char (c : ascii) : ascii :=
  let n := nat_of_ascii c in
  if ((65 <=? n) && (n <=? 90))%nat then ascii_of_nat (n + 32) else c.

(** [s.lower()]. *)
Fixpoint lower (s : string) : string :=
  match s with
  | EmptyString => EmptyString
  | String c s' => String (lower_char c) (lower s')
  end.

(** [w in (a, b, ...)] for strings. *)
Definition word_in (w : string) (words : list string) : bool :=
  existsb (String.eqb w) words.

(** [sep.join(parts)]. *)
Fixpoint str_join (sep : string) (parts : list string) : string :=
  match parts with
  | [] => ""
  | [x] => x
  | x :: rest => x +:+ sep +:+ str_join sep rest
  end.

Definition newline : string := String (ascii_of_nat 10) EmptyString.

Definition banner : string :=
  "Simple Python calculator. Type 'help' for commands, 'quit' or 'q' to exit.".

Definition help_text : string :=
  "Commands:" +:+ newline +:+ "  help or ?" +:+ newline
  +:+ "  quit or q or exit" +:+ newline +:+ "  history" +:+ newline
  +:+ "Examples: 2+2, sin(pi/2), factorial(5)".

(** What the terminal shows: the prompt that [input] writes before it
    reads a line, and the calls of [print]. *)
Inductive printed :=
| Prompt (s : string)                            (* [input(s)] *)
| Text (s : string)                              (* [print] of a literal *)
| Result (shown : string)                        (* [print(result)] *)
| Error (e : exn)                                (* [print('Error:', e)] *)
| Entry (i : nat) (expr : string) (shown : string).
                                       (* [print(f"{i}: {expr} = {result}")] *)

(** A finished run of [repl]: what it printed, the history list when it
    stopped, and the exception that left it, if one did. *)
Record session := Session {
  output : list printed;
  entries : list (string * value);
  escaped : option exn
}.

(** A finished process: what it printed, its exit status, and the
    exception behind a traceback, if any. *)
Record process := Process {
  stdout : list printed;
  status : Z;
  uncaught : option exn
}.

Definition say (lines : list printed) (t : session) : session :=
  Session (lines ++ output t) (entries t) (escaped t).

(** [try: ... except Exception as e:] around a computation: its outcome
    becomes a value. *)
Definition attempt {A} (m : M A) : M (outcome A) :=
  fun g => let r := m g in Run (Return (result r)) (invoked r) (after r).

Section Shell.

Context (H : Host) (C : Console).

(** The [for] loop of the history command, from number [i] on: the lines
    printed, and the exception of [str()] that ended it, if any. *)
Fixpoint show_entries (i : nat) (history : list (string * value))
    : list printed * option exn :=
  match history with
  | [] => ([], None)
  | (expr, v) :: rest =>
      match str_value C v with
      | Return shown =>
          let '(lines, e) := show_entries (S i) rest in
          (Entry i expr shown :: lines, e)
      | Raise e => ([], Some e)
      end
  end.

(** The [while True] loop of [repl], on the lines that [input] will
    return; the end of the list is the end of the input ([EOFError]; a
    [KeyboardInterrupt] at the prompt takes the same branch).  Every turn
    starts with [input('calc> ')], which shows the prompt, also the turn
    that finds the input at its end. *)
Fixpoint repl_loop (lines : list string) (history : list (string * value))
    : M session :=
  match lines with
  | [] =>
      ret (Session [Prompt "calc> "; Text (newline +:+ "Goodbye")] history None)
  | line :: rest =>
      let s := strip line in
      t <-
        (if String.eqb s "" then repl_loop rest history
         else
           let low := lower s in
           if word_in low ["quit"; "q"; "exit"] then
             ret (Session [Text "Goodbye"] history None)
           else if word_in low ["help"; "?"] then
             t <- repl_loop rest history ;;
             ret (say [Text help_text] t)
           else if String.eqb low "history" then
             match history with
             | [] =>
                 t <- repl_loop rest history ;;
                 ret (say [Text "No history yet"] t)
             | _ :: _ =>
                 match show_entries 1 history with
                 | (shown, Some e) => ret (Session shown history (Some e))
                 | (shown, None) =>
                     t <- repl_loop rest history ;;
                     ret (say shown t)
                 end
             end
           else
             o <- attempt (evaluate H s) ;;
             match o with
             | Return v =>
                 let history' := history ++ [(s, v)] in
                 match str_value C v with
                 | Return shown =>
                     t <- repl_loop rest history' ;;
                     ret (say [Result shown] t)
                 | Raise e =>
                     t <- repl_loop rest history' ;;
                     ret (say [Error e] t)
                 end
             | Raise e =>
                 t <- repl_loop rest history ;;
                 ret (say [Error e] t)
             end) ;;
      ret (say [Prompt "calc> "] t)
  end.

Definition repl (lines : list string) : M session :=
  t <- repl_loop lines [] ;;
  ret (say [Text banner] t).

(** The [__main__] block: [argv] is [sys.argv], [lines] what the
    terminal would give to [input].  An exception that leaves the program
    ends the process with status 1. *)
Definition main (argv : list string) (lines : list string) : M process :=
  if (1 <? length argv)%nat then
    let expr := str_join " " (tl argv) in
    o <- attempt (evaluate H expr) ;;
    match o with
    | Return v =>
        match str_value C v with
        | Return shown => ret (Process [Result shown] 0 None)
        | Raise e => ret (Process [Error e] 1 None)
        end
    | Raise e => ret (Process [Error e] 1 None)
    end
  else
    t <- repl lines ;;
    ret (Process (output t)
                 (match escaped t with Some _ => 1 | None => 0 end)
                 (escaped t)).

(** Running the file as a script: the module body, then the [__main__]
    block. *)
Definition script (argv : list string) (lines : list string) : M process :=
  _ <- module_body ;;
  main argv lines.

End Shell.

(** ** A reference host

    [ast.parse] is the host's, not the program's.  To run the evaluator
    on concrete texts, this module gives an executable parser for a
    fragment of Python's expression grammar, in one line of ASCII text:
    - decimal integer and float literals, with digit separators;
    - names, [True], [False], [None];
    - string, bytes and formatted string literals in single or double
      quotes, with their prefix letters, without a backslash; string
      literals, or bytes literals, next to each other; the replacement
      fields of a formatted string hold an expression and none of the
      characters [! : = # { }];
    - parentheses and tuples; calls with positional and keyword
      arguments; attribute access; subscription by an expression;
    - the unary and binary arithmetic and bitwise operators,
      comparisons, [not], [and], [or], with Python's precedence and
      associativity;
    - blanks between the tokens and a comment at the end.

    On a text of the fragment [parse] gives the tree that
    [ast.parse(text, mode='eval')] builds, without the fields that the
    evaluator never reads (positions, contexts, the kind of a constant),
    and it refuses the texts made of these tokens that [ast.parse]
    refuses.  The rest of Python's grammar (conditional expressions,
    lambdas, displays and comprehensions, slices, starred arguments,
    assignment expressions, [await], escapes and triple quotes, a
    formatted string next to another literal, non-decimal and imaginary
    literals, line breaks, characters outside ASCII) is outside the
    fragment: [parse] answers with a syntax error there, where
    [ast.parse] builds a tree, which the evaluator may accept (a
    hexadecimal literal is a number to it).  What is stated below of a
    concrete text is stated of texts of the fragment.

    The detail of a syntax error is the one of CPython 3.11 for the empty
    text, an indented text, a malformed number, an unterminated literal,
    mixed literals, the braces of a formatted string, a bracket without
    its partner, a positional argument after a keyword argument and a
    keyword named [True], [False] or [None], each on a text with that one
    error; everywhere else it is the generic [invalid syntax], where
    CPython often says more.  No statement depends on a detail, and the
    statements that are quantified over every host do not use this
    parser. *)
Module Reference.

Inductive token :=
| NUMBER (c : constant)
| HUGE (digits : nat)              (* an int literal beyond 4300 digits *)
| NAME (s : string)
| STRING (s : string)
| BYTES (s : string)
| FSTRING (parts : list (string + list token))
| OP (s : string).

(** What a scanner or a rule of the grammar answers: a result; no match
    (the generic syntax error, unless another alternative matches); no
    match because the text ends where the rule needs a token; or an
    error of its own, which ends the parse. *)
Inductive reply (A : Type) :=
| Ok (a : A)
| NoParse
| Starved
| Fatal (detail : string).
Arguments Ok {A} a.
Arguments NoParse {A}.
Arguments Starved {A}.
Arguments Fatal {A} detail.

#[local] Instance reply_bind : MBind reply := fun A B f r =>
  match r with
  | Ok a => f a
  | NoParse => NoParse
  | Starved => Starved
  | Fatal d => Fatal d
  end.

Definition is_digit (c : ascii) : bool :=
  let n := nat_of_ascii c in ((48 <=? n) && (n <=? 57))%nat.

Definition is_name_start (c : ascii) : bool :=
  let n := nat_of_ascii c in
  (((65 <=? n) && (n <=? 90)) || ((97 <=? n) && (n <=? 122)) || (n =? 95))%nat.

Definition is_name_char (c : ascii) : bool := is_name_start c || is_digit c.

(** Space, tab and form feed. *)
Definition is_blank (c : ascii) : bool :=
  let n := nat_of_ascii c in ((n =? 32) || (n =? 9) || (n =? 12))%nat.

Definition double_quote : ascii := ascii_of_nat 34.
Definition backslash : ascii := ascii_of_nat 92.

Definition is_quote (c : ascii) : bool :=
  (Ascii.eqb c "'" || Ascii.eqb c double_quote)%bool.

Fixpoint span (p : ascii -> bool) (l : list ascii) : list ascii * list ascii :=
  match l with
  | c :: l' =>
      if p c then let '(a, b) := span p l' in (c :: a, b) else ([], l)
  | [] => ([], [])
  end.

Definition member (s : string) (l : list string) : bool :=
  existsb (String.eqb s) l.

(** *** Numbers *)

(** The digits at the head of [l], without the underscores that separate
    them: an underscore stands between two digits ([prev]: the character
    before was one). *)
Fixpoint span_digits (prev : bool) (l : list ascii) : list ascii * list ascii :=
  match l with
  | c :: l' =>
      if is_digit c then let '(a, b) := span_digits true l' in (c :: a, b)
      else if (prev && Ascii.eqb c "_"
               && match l' with d :: _ => is_digit d | [] => false end)%bool
      then span_digits false l'
      else ([], l)
  | [] => ([], [])
  end.

Definition digit_value (c : ascii) : Z := Z.of_nat (nat_of_ascii c) - 48.

Definition digits_value (ds : list ascii) : Z :=
  fold_left (fun acc c => 10 * acc + digit_value c) ds 0.

(** The float written with the digits [ds] times [10^e10], correctly
    rounded: an integer is rounded once, a ratio is one division of the
    two exact integers (as in [int_true_divide]).  A value of [10^310]
    or more is beyond the largest float, and one below [10^-325] is
    nearer to zero than to the smallest float. *)
Definition float_of_decimal (ds : list ascii) (e10 : Z) : float :=
  let m := digits_value ds in
  if m =? 0 then S754_zero false
  else if 310 <=? e10 then S754_infinity false
  else if e10 + Z.of_nat (length ds) <=? -325 then S754_zero false
  else if 0 <=? e10 then binary_normalize prec emax (m * 10 ^ e10) 0 false
  else SFdiv prec emax (S754_finite false (Z.to_pos m) 0)
                       (S754_finite false (Z.to_pos (10 ^ (- e10))) 0).

(** The words that may follow a number without a blank. *)
Definition number_follow : list string :=
  ["and"; "or"; "in"; "is"; "if"; "else"; "not"; "for"].

(** A number literal at the head of [l]: its token and the rest. *)
Definition scan_number (l : list ascii) : reply (token * list ascii) :=
  let '(ip, r1) := span_digits false l in
  let '(fp, r2, dotted) :=
    match r1 with
    | "."%char :: r => let '(fp, r2) := span_digits false r in (fp, r2, true)
    | _ => ([], r1, false)
    end in
  let '(ex, r3, exped) :=
    match r2 with
    | c :: r =>
        if (Ascii.eqb c "e" || Ascii.eqb c "E")%bool then
          let '(sign, r') :=
            match r with
            | "-"%char :: r' => (-1, r')
            | "+"%char :: r' => (1, r')
            | _ => (1, r)
            end in
          let '(ed, r'') := span_digits false r' in
          match ed with
          | [] => (0, r2, false)
          | _ => (sign * digits_value ed, r'', true)
          end
        else (0, r2, false)
    | [] => (0, r2, false)
    end in
  let '(word, _) := span is_name_char r3 in
  let glued :=
    match word with
    | [] => false
    | _ => negb (member (string_of_list_ascii word) number_follow)
    end in
  if glued then Fatal "invalid decimal literal"
  else if (dotted || exped)%bool then
    match ip, fp with
    | [], [] => NoParse
    | _, _ =>
        Ok (NUMBER (CFloat (float_of_decimal (ip ++ fp)
                              (ex - Z.of_nat (length fp)))), r3)
    end
  else
    match ip with
    | [] => NoParse
    | "0"%char :: _ :: _ =>
        if digits_value ip =? 0 then Ok (NUMBER (CInt 0), r3)
        else Fatal ("leading zeros in decimal integer literals are not "
                    +:+ "permitted; use an 0o prefix for octal integers")
    | _ =>
        if (4300 <? length ip)%nat then Ok (HUGE (length ip), r3)
        else Ok (NUMBER (CInt (digits_value ip)), r3)
    end.

(** *** Strings *)

(** The body of a literal opened by the quote [q], and what follows its
    closing quote.  An empty literal followed by a third quote opens a
    triple-quoted one. *)
Definition scan_string (q : ascii) (r : list ascii)
    : reply (string * list ascii) :=
  let '(body, r') :=
    span (fun d => negb (Ascii.eqb d q || Ascii.eqb d backslash)%bool) r in
  match r' with
  | d :: r'' =>
      if Ascii.eqb d q then
        match body, r'' with
        | [], d' :: _ => if Ascii.eqb d' q then NoParse else Ok (EmptyString, r'')
        | _, _ => Ok (string_of_list_ascii body, r'')
        end
      else NoParse
  | [] => Fatal "unterminated string literal (detected at line 1)"
  end.

Definition field_char (c : ascii) : bool :=
  negb (Ascii.eqb c "!" || Ascii.eqb c ":" || Ascii.eqb c "="
        || Ascii.eqb c "#")%bool.

Definition flush (lit : list ascii) (parts : list (string + list ascii))
    : list (string + list ascii) :=
  match lit with
  | [] => parts
  | _ => inl (string_of_list_ascii (rev lit)) :: parts
  end.

(** The body of a formatted string cut into literal text and replacement
    fields; [lit] is the literal text read so far, backwards. *)
Fixpoint split_fields (fuel : nat) (text lit : list ascii)
    : reply (list (string + list ascii)) :=
  match fuel with
  | O => NoParse
  | S fuel' =>
      match text with
      | [] => Ok (flush lit [])
      | c :: r =>
          if Ascii.eqb c "{" then
            match r with
            | [] => Fatal "f-string: expecting '}'"
            | d :: r' =>
                if Ascii.eqb d "{" then split_fields fuel' r' (d :: lit)
                else
                  let '(field, r'') :=
                    span (fun x => negb (Ascii.eqb x "{" || Ascii.eqb x "}")%bool) r in
                  match r'' with
                  | [] => Fatal "f-string: expecting '}'"
                  | x :: r''' =>
                      if (Ascii.eqb x "}" && forallb field_char field)%bool then
                        parts ← split_fields fuel' r''' [];
                        Ok (flush lit (inr field :: parts))
                      else NoParse
                  end
            end
          else if Ascii.eqb c "}" then
            match r with
            | d :: r' =>
                if Ascii.eqb d "}" then split_fields fuel' r' (d :: lit)
                else Fatal "f-string: single '}' is not allowed"
            | [] => Fatal "f-string: single '}' is not allowed"
            end
          else split_fields fuel' r (c :: lit)
      end
  end.

(** *** Tokens *)

Definition two_char_ops : list string :=
  ["**"; "//"; "<<"; ">>"; "<="; ">="; "=="; "!="]%string.

(** The printable characters that are no letter, digit, quote, blank or
    backslash: each is a token, whether the grammar has a use for it or
    not. *)
Definition is_symbol (c : ascii) : bool :=
  let n := nat_of_ascii c in
  ((33 <=? n) && (n <=? 126) && negb (n =? 92))%nat.

Inductive literal_kind := plain | bytes_literal | formatted.

(** The letters that may stand before the opening quote.  Without a
    backslash in the literal, [r] changes nothing. *)
Definition prefix_kind (word : string) : option literal_kind :=
  let w := lower word in
  if member w ["r"; "u"] then Some plain
  else if member w ["b"; "br"; "rb"] then Some bytes_literal
  else if member w ["f"; "fr"; "rf"] then Some formatted
  else None.

Fixpoint tokenize (fuel : nat) (l : list ascii) : reply (list token) :=
  match fuel with
  | O => NoParse
  | S fuel' =>
      match l with
      | [] => Ok []
      | c :: r =>
          if is_blank c then tokenize fuel' r
          else if Ascii.eqb c "#" then Ok []
          else if (is_digit c
                   || (Ascii.eqb c "." &&
                       match r with d :: _ => is_digit d | [] => false end))%bool
          then
            '(t, r') ← scan_number l;
            ts ← tokenize fuel' r';
            Ok (t :: ts)
          else if is_quote c then
            '(s, r') ← scan_string c r;
            ts ← tokenize fuel' r';
            Ok (STRING s :: ts)
          else if is_name_start c then
            let '(w, r') := span is_name_char l in
            let word := string_of_list_ascii w in
            match r' with
            | q :: r'' =>
                if is_quote q then
                  '(s, r3) ← scan_string q r'';
                  match prefix_kind word with
                  | Some plain =>
                      ts ← tokenize fuel' r3;
                      Ok (STRING s :: ts)
                  | Some bytes_literal =>
                      ts ← tokenize fuel' r3;
                      Ok (BYTES s :: ts)
                  | Some formatted =>
                      let body := list_ascii_of_string s in
                      parts ← split_fields (S (length body)) body [];
                      fields ←
                        (fix each (ps : list (string + list ascii))
                             : reply (list (string + list token)) :=
                           match ps with
                           | [] => Ok []
                           | inl text :: ps' =>
                               rest ← each ps';
                               Ok (inl text :: rest)
                           | inr field :: ps' =>
                               ts ← tokenize fuel' field;
                               match ts with
                               | [] =>
                                   Fatal "f-string: empty expression not allowed"
                               | _ =>
                                   rest ← each ps';
                                   Ok (inr ts :: rest)
                               end
                           end) parts;
                      ts ← tokenize fuel' r3;
                      Ok (FSTRING fields :: ts)
                  | None =>
                      ts ← tokenize fuel' r3;
                      Ok (NAME word :: STRING s :: ts)
                  end
                else
                  ts ← tokenize fuel' r';
                  Ok (NAME word :: ts)
            | [] => Ok [NAME word]
            end
          else if is_symbol c then
            let one := String c EmptyString in
            match r with
            | d :: r' =>
                let two := String c (String d EmptyString) in
                if member two two_char_ops then
                  ts ← tokenize fuel' r';
                  Ok (OP two :: ts)
                else
                  ts ← tokenize fuel' r;
                  Ok (OP one :: ts)
            | [] => Ok [OP one]
            end
          else NoParse
      end
  end.

Fixpoint token_size (t : token) : nat :=
  match t with
  | FSTRING parts =>
      S ((fix each (ps : list (string + list token)) : nat :=
            match ps with
            | [] => O
            | inl _ :: ps' => S (each ps')
            | inr ts :: ps' =>
                ((fix sum (l : list token) : nat :=
                    match l with
                    | [] => O
                    | t' :: l' => token_size t' + sum l'
                    end) ts + each ps')%nat
            end) parts)
  | _ => 1%nat
  end.

Definition tokens_size (ts : list token) : nat :=
  fold_right (fun t n => (token_size t + n)%nat) O ts.

Definition closer (o : string) : string :=
  if String.eqb o "(" then ")" else if String.eqb o "[" then "]" else "}".

(** The brackets of a token list: the first closing one without its
    partner, or the opening ones that are left open, the innermost
    first. *)
Fixpoint brackets (open : list string) (ts : list token)
    : string + list string :=
  match ts with
  | [] => inr open
  | OP c :: ts' =>
      if member c ["("; "["; "{"] then brackets (c :: open) ts'
      else if member c [")"; "]"; "}"] then
        match open with
        | [] => inl ("unmatched '" +:+ c +:+ "'")
        | o :: open' =>
            if String.eqb (closer o) c then brackets open' ts'
            else inl ("closing parenthesis '" +:+ c
                      +:+ "' does not match opening parenthesis '"
                      +:+ o +:+ "'")
        end
      else brackets open ts'
  | _ :: ts' => brackets open ts'
  end.

(** *** The grammar *)

Definition parser : Type := list token -> reply (node * list token).

Definition lookup_op {A} (o : string) (table : list (string * A)) : option A :=
  match find (fun p => String.eqb o (fst p)) table with
  | Some p => Some (snd p)
  | None => None
  end.

(** [sub (op sub)*], left associative. *)
Fixpoint binary_loop (sub : parser) (table : list (string * operator))
    (fuel : nat) (l : node) (ts : list token) : reply (node * list token) :=
  match fuel with
  | O => NoParse
  | S fuel' =>
      match ts with
      | OP o :: ts' =>
          match lookup_op o table with
          | Some op =>
              '(r, ts'') ← sub ts';
              binary_loop sub table fuel' (BinOp l op r) ts''
          | None => Ok (l, ts)
          end
      | _ => Ok (l, ts)
      end
  end.

Definition cmpop_at (ts : list token) : option (cmpop * list token) :=
  match ts with
  | OP o :: r =>
      match lookup_op o [("==", Eq_); ("!=", NotEq); ("<", Lt_); ("<=", LtE);
                         (">", Gt_); (">=", GtE)]%string with
      | Some c => Some (c, r)
      | None => None
      end
  | NAME a :: r =>
      if String.eqb a "in" then Some (In_, r)
      else if String.eqb a "is" then
        match r with
        | NAME b :: r' => if String.eqb b "not" then Some (IsNot, r') else Some (Is, r)
        | _ => Some (Is, r)
        end
      else if String.eqb a "not" then
        match r with
        | NAME b :: r' => if String.eqb b "in" then Some (NotIn, r') else None
        | _ => None
        end
      else None
  | _ => None
  end.

(** [(cmpop sub)*]: the operators and the comparators. *)
Fixpoint compare_loop (sub : parser) (fuel : nat) (ts : list token)
    : reply (list cmpop * list node * list token) :=
  match fuel with
  | O => NoParse
  | S fuel' =>
      match cmpop_at ts with
      | Some (c, ts') =>
          '(r, ts'') ← sub ts';
          '(cs, rs, rest) ← compare_loop sub fuel' ts'';
          Ok (c :: cs, r :: rs, rest)
      | None => Ok ([], [], ts)
      end
  end.

(** [(word sub)*] for [word] one of [and], [or]: the further operands. *)
Fixpoint bool_loop (sub : parser) (word : string) (fuel : nat)
    (ts : list token) : reply (list node * list token) :=
  match fuel with
  | O => NoParse
  | S fuel' =>
      match ts with
      | NAME a :: ts' =>
          if String.eqb a word then
            '(r, ts'') ← sub ts';
            '(rs, rest) ← bool_loop sub word fuel' ts'';
            Ok (r :: rs, rest)
          else Ok ([], ts)
      | _ => Ok ([], ts)
      end
  end.

Definition constant_names : list string := ["True"; "False"; "None"].

Definition reserved : list string :=
  ["and"; "or"; "not"; "if"; "else"; "elif"; "lambda"; "in"; "is"; "for";
   "while"; "def"; "class"; "return"; "yield"; "import"; "from"; "as";
   "with"; "try"; "except"; "finally"; "raise"; "pass"; "break";
   "continue"; "global"; "nonlocal"; "del"; "assert"; "async";
   "await"]%string.

Definition atom_of_name (x : string) : option node :=
  if String.eqb x "True" then Some (Constant (CBool true))
  else if String.eqb x "False" then Some (Constant (CBool false))
  else if String.eqb x "None" then Some (Constant CNone)
  else if member x reserved then None
  else Some (Name x).

Definition is_op (o : string) (t : token) : bool :=
  match t with OP o' => String.eqb o o' | _ => false end.

Definition mixed_literals : string :=
  "cannot mix bytes and nonbytes literals".

(** The string (or bytes) literals that follow one of their kind, joined. *)
Fixpoint gather (bytes : bool) (ts : list token) : reply (string * list token) :=
  match ts with
  | STRING s :: ts' =>
      if bytes then Fatal mixed_literals
      else '(s', rest) ← gather bytes ts'; Ok (s +:+ s', rest)
  | BYTES s :: ts' =>
      if bytes then '(s', rest) ← gather bytes ts'; Ok (s +:+ s', rest)
      else Fatal mixed_literals
  | FSTRING _ :: _ => if bytes then Fatal mixed_literals else NoParse
  | _ => Ok (EmptyString, ts)
  end.

Fixpoint decimal_digits (fuel : nat) (n : Z) (acc : string) : string :=
  match fuel with
  | O => acc
  | S fuel' =>
      let acc' := String (ascii_of_nat (48 + Z.to_nat (n mod 10))) acc in
      if n <? 10 then acc' else decimal_digits fuel' (n / 10) acc'
  end.

(** [str(n)] for an int, without its limit. *)
Definition str_int (n : Z) : string :=
  let digits := decimal_digits (S (Z.to_nat (Z.log2 (Z.abs n)))) (Z.abs n) "" in
  if n <? 0 then "-" +:+ digits else digits.

Definition limit_detail : string :=
  "Exceeds the limit (4300 digits) for integer string conversion".

Definition limit_advice : string :=
  "; use sys.set_int_max_str_digits() to increase the limit".

Definition huge_literal (digits : nat) : string :=
  limit_detail +:+ ": value has " +:+ str_int (Z.of_nat digits) +:+ " digits"
  +:+ limit_advice
  +:+ " - Consider hexadecimal for huge integer literals to avoid decimal"
  +:+ " conversion limits.".

(** The rules of the grammar, from the loosest binding to the atoms. *)
Inductive rule :=
| disjunction | conjunction | inversion | comparison
| bitwise_or | bitwise_xor | bitwise_and | shift_expr | sum | term
| factor | power | primary | atom.

(** The binary rules: the operators of the rule and the next rule. *)
Definition binary_rule (r : rule) : option (list (string * operator) * rule) :=
  match r with
  | bitwise_or => Some ([("|", BitOr)], bitwise_xor)
  | bitwise_xor => Some ([("^", BitXor)], bitwise_and)
  | bitwise_and => Some ([("&", BitAnd)], shift_expr)
  | shift_expr => Some ([("<<", LShift); (">>", RShift)], sum)
  | sum => Some ([("+", Add); ("-", Sub)], term)
  | term => Some ([("*", Mult); ("/", Div); ("//", FloorDiv); ("%", Mod);
                   ("@", MatMult)], factor)
  | _ => None
  end%string.

Fixpoint parse_rule (k : nat) (r : rule) (ts : list token) {struct k}
    : reply (node * list token) :=
  match k with
  | O => NoParse
  | S k =>
      match r with
      | disjunction =>
          '(e, ts') ← parse_rule k conjunction ts;
          '(es, rest) ←
            bool_loop (parse_rule k conjunction) "or" (S (length ts')) ts';
          match es with
          | [] => Ok (e, rest)
          | _ => Ok (BoolOp Or (e :: es), rest)
          end
      | conjunction =>
          '(e, ts') ← parse_rule k inversion ts;
          '(es, rest) ←
            bool_loop (parse_rule k inversion) "and" (S (length ts')) ts';
          match es with
          | [] => Ok (e, rest)
          | _ => Ok (BoolOp And (e :: es), rest)
          end
      | inversion =>
          match ts with
          | NAME a :: ts' =>
              if String.eqb a "not" then
                '(e, rest) ← parse_rule k inversion ts';
                Ok (UnaryOp Not e, rest)
              else parse_rule k comparison ts
          | _ => parse_rule k comparison ts
          end
      | comparison =>
          '(e, ts') ← parse_rule k bitwise_or ts;
          '(cs, rs, rest) ←
            compare_loop (parse_rule k bitwise_or) (S (length ts')) ts';
          match cs with
          | [] => Ok (e, rest)
          | _ => Ok (Compare e cs rs, rest)
          end
      | factor =>
          match ts with
          | OP o :: ts' =>
              match lookup_op o [("+", UAdd); ("-", USub); ("~", Invert)]%string with
              | Some u =>
                  '(e, rest) ← parse_rule k factor ts';
                  Ok (UnaryOp u e, rest)
              | None => parse_rule k power ts
              end
          | _ => parse_rule k power ts
          end
      | power =>
          '(b, ts') ← parse_rule k primary ts;
          match ts' with
          | t :: ts'' =>
              if is_op "**" t then
                '(e, rest) ← parse_rule k factor ts'';
                Ok (BinOp b Pow e, rest)
              else Ok (b, ts')
          | [] => Ok (b, ts')
          end
      | primary =>
          '(a, ts') ← parse_rule k atom ts;
          parse_trailers k a ts'
      | atom =>
          match ts with
          | NUMBER c :: ts' => Ok (Constant c, ts')
          | HUGE digits :: _ => Fatal (huge_literal digits)
          | STRING s :: ts' =>
              '(s', rest) ← gather false ts';
              Ok (Constant (CStr (s +:+ s')), rest)
          | BYTES s :: ts' =>
              '(s', rest) ← gather true ts';
              Ok (Constant (CBytes (s +:+ s')), rest)
          | FSTRING parts :: ts' =>
              values ← parse_fields k parts;
              match ts' with
              | (STRING _ | FSTRING _) :: _ => NoParse
              | BYTES _ :: _ => Fatal mixed_literals
              | _ => Ok (OtherNode "JoinedStr" values, ts')
              end
          | NAME x :: ts' =>
              match atom_of_name x with
              | Some a => Ok (a, ts')
              | None => NoParse
              end
          | OP o :: ts' =>
              if String.eqb o "(" then
                match ts' with
                | t :: ts'' =>
                    if is_op ")" t then Ok (Tuple [], ts'')
                    else
                      '(e, rest) ← parse_expressions k ts';
                      match rest with
                      | t' :: rest' =>
                          if is_op ")" t' then Ok (e, rest') else NoParse
                      | [] => Starved
                      end
                | [] => Starved
                end
              else NoParse
          | [] => Starved
          end
      | _ =>
          match binary_rule r with
          | Some (table, next) =>
              '(e, ts') ← parse_rule k next ts;
              binary_loop (parse_rule k next) table (S (length ts')) e ts'
          | None => NoParse
          end
      end
  end

(** [expression (',' expression)* [',']]: one expression, or a tuple as
    soon as there is a comma. *)
with parse_expressions (k : nat) (ts : list token) {struct k}
    : reply (node * list token) :=
  match k with
  | O => NoParse
  | S k =>
      '(e, ts') ← parse_rule k disjunction ts;
      match ts' with
      | t :: ts'' =>
          if is_op "," t then
            '(es, rest) ← parse_more k ts'';
            Ok (Tuple (e :: es), rest)
          else Ok (e, ts')
      | [] => Ok (e, ts')
      end
  end

(** After a comma: the further elements, a trailing comma allowed. *)
with parse_more (k : nat) (ts : list token) {struct k}
    : reply (list node * list token) :=
  match k with
  | O => NoParse
  | S k =>
      match parse_rule k disjunction ts with
      | Ok (e, t :: ts') =>
          if is_op "," t then
            '(es, rest) ← parse_more k ts';
            Ok (e :: es, rest)
          else Ok ([e], t :: ts')
      | Ok (e, []) => Ok ([e], [])
      | NoParse => Ok ([], ts)
      | Starved => match ts with [] => Ok ([], []) | _ => Starved end
      | Fatal d => Fatal d
      end
  end

(** The trailers of a primary: [.name], [(arguments)], [[index]]. *)
with parse_trailers (k : nat) (a : node) (ts : list token) {struct k}
    : reply (node * list token) :=
  match k with
  | O => NoParse
  | S k =>
      match ts with
      | OP o :: ts' =>
          if String.eqb o "." then
            match ts' with
            | NAME x :: rest =>
                if (member x reserved || member x constant_names)%bool
                then NoParse
                else parse_trailers k (Attribute a x) rest
            | [] => Starved
            | _ => NoParse
            end
          else if String.eqb o "(" then
            '(ps, ks, rest) ← parse_arguments k false ts';
            parse_trailers k (Call a ps ks) rest
          else if String.eqb o "[" then
            '(i, rest) ← parse_expressions k ts';
            match rest with
            | t :: rest' =>
                if is_op "]" t then parse_trailers k (Subscript a i) rest'
                else NoParse
            | [] => Starved
            end
          else Ok (a, ts)
      | _ => Ok (a, ts)
      end
  end

(** The arguments of a call up to its closing parenthesis: positional
    ones, then [name=value] ones ([seen] once a keyword was read). *)
with parse_arguments (k : nat) (seen : bool) (ts : list token) {struct k}
    : reply (list node * list node * list token) :=
  match k with
  | O => NoParse
  | S k =>
      match ts with
      | [] => Starved
      | t :: ts' =>
          if is_op ")" t then Ok ([], [], ts')
          else
            '(item, rest) ←
              match ts return reply ((node + node) * list token) with
              | NAME x :: t' :: ts'' =>
                  if is_op "=" t' then
                    if member x constant_names
                    then Fatal ("cannot assign to " +:+ x)
                    else if member x reserved then NoParse
                    else
                      '(v, rest) ← parse_rule k disjunction ts'';
                      Ok (inr (keyword (Some x) v), rest)
                  else
                    '(v, rest) ← parse_rule k disjunction ts;
                    Ok (inl v, rest)
              | _ =>
                  '(v, rest) ← parse_rule k disjunction ts;
                  Ok (inl v, rest)
              end;
            match rest, item, seen with
            | [], _, _ => Starved
            | _, inl _, true =>
                Fatal "positional argument follows keyword argument"
            | t' :: rest', _, _ =>
                '(ps, ks, rest'') ←
                  (if is_op "," t' then
                     parse_arguments k
                       (match item with inr _ => true | inl _ => seen end)
                       rest'
                   else if is_op ")" t' then Ok ([], [], rest')
                   else NoParse);
                match item with
                | inl v => Ok (v :: ps, ks, rest'')
                | inr kw => Ok (ps, kw :: ks, rest'')
                end
            end
      end
  end

(** The parts of a formatted string: a constant for literal text, a
    [FormattedValue] for a replacement field. *)
with parse_fields (k : nat) (parts : list (string + list token)) {struct k}
    : reply (list node) :=
  match k with
  | O => NoParse
  | S k =>
      match parts with
      | [] => Ok []
      | inl text :: parts' =>
          values ← parse_fields k parts';
          Ok (Constant (CStr text) :: values)
      | inr ts :: parts' =>
          match parse_expressions k ts with
          | Ok (e, []) =>
              values ← parse_fields k parts';
              Ok (OtherNode "FormattedValue" [e] :: values)
          | Fatal d => Fatal d
          | _ => NoParse
          end
      end
  end.

Definition located (detail : string) : string :=
  detail +:+ " (<unknown>, line 1)".

Definition syntax_detail : string := "invalid syntax (<unknown>, line 1)".

(** The leading blanks indent the line when the last of them is no form
    feed (which sets the column back to zero) and what follows is no
    comment. *)
Definition indented (l : list ascii) : bool :=
  let '(blanks, r) := span is_blank l in
  match rev blanks, r with
  | c :: _, d :: _ => negb (Ascii.eqb c (ascii_of_nat 12)) && negb (Ascii.eqb d "#")
  | c :: _, [] => negb (Ascii.eqb c (ascii_of_nat 12))
  | [], _ => false
  end.

(** [ast.parse(text, mode='eval')] on the fragment.  When the grammar
    needs a token where the text ends and a bracket is still open, the
    error is that of the bracket. *)
Definition parse (text : string) : parse_result :=
  let l := list_ascii_of_string text in
  if existsb (Ascii.eqb zero) l then
    ParseFault (ValueError "source code string cannot contain null bytes")
  else
    match l with
    | [] => SyntaxError "invalid syntax (<unknown>, line 0)"
    | _ =>
        if indented l then SyntaxError (located "unexpected indent")
        else
          match tokenize (S (length l)) l with
          | Fatal d => SyntaxError (located d)
          | Ok ts =>
              match brackets [] ts with
              | inl d => SyntaxError (located d)
              | inr open =>
                  match parse_expressions (16 * S (tokens_size ts)) ts, open with
                  | Ok (e, []), _ => Parsed (Expression e)
                  | Fatal d, _ => SyntaxError (located d)
                  | Starved, o :: _ =>
                      SyntaxError (located ("'" +:+ o +:+ "' was never closed"))
                  | _, _ => SyntaxError syntax_detail
                  end
              end
          | _ => SyntaxError syntax_detail
          end
    end.

(** Any host, with its parser replaced by the reference parser and a
    64-bit C long. *)
Definition host (lib : Host) : Host := {|
  ast_parse := parse;
  ast_dump := ast_dump lib;
  float_floor_div := float_floor_div lib;
  float_rem := float_rem lib;
  float_pow := float_pow lib;
  object_binop := object_binop lib;
  object_unaryop := object_unaryop lib;
  call_function := call_function lib;
  LONG_MAX := 2 ^ 63 - 1
|}.

(** [abs] of a number needs no library. *)
Definition call_exact (f : builtin) (args : list value) : outcome value :=
  match f, args with
  | builtins_abs, [v] =>
      match number_of v with
      | Some (NInt n) => Return (VInt (Z.abs n))
      | Some (NFloat x) => Return (VFloat (SFabs x))
      | None => Raise TypeError
      end
  | _, _ => Raise TypeError
  end.

(** A host without a C library, to close the examples that never reach
    it: its arithmetic outside [int], [bool] and the four exact float
    operations is undefined (NaN, or TypeError), and of the functions of
    the names table it has [abs] on the numbers. *)
Definition bare : Host := {|
  ast_parse := parse;
  ast_dump := fun _ => "";
  float_floor_div := fun _ _ => S754_nan;
  float_rem := fun _ _ => S754_nan;
  float_pow := fun _ _ => Raise TypeError;
  object_binop := fun _ _ _ => Raise TypeError;
  object_unaryop := fun _ _ => Raise TypeError;
  call_function := call_exact;
  LONG_MAX := 2 ^ 63 - 1
|}.

(** A console for the examples: ints (within the 4300-digit limit of
    [str()]), bools, the special floats, the floats that are integers
    below [10**16], function objects and tuples as Python prints them;
    the other floats and the complex numbers as a placeholder. *)
Definition str_float (f : float) : string :=
  match f with
  | S754_nan => "nan"
  | S754_infinity s => if s then "-inf" else "inf"
  | S754_zero s => if s then "-0.0" else "0.0"
  | S754_finite s m e =>
      if (is_integer f && (0 <=? e + 53) && (Z.pos m * 2 ^ (e + 53) <? 10 ^ 16 * 2 ^ 53))%bool
      then
        (if s then "-" else "")
        +:+ str_int (if 0 <=? e then Z.pos m * 2 ^ e else Z.pos m / 2 ^ (- e))
        +:+ ".0"
      else "<float>"
  end.

Definition builtin_name (f : builtin) : string :=
  match f with
  | operator_add => "add" | operator_sub => "sub" | operator_mul => "mul"
  | operator_truediv => "truediv" | operator_floordiv => "floordiv"
  | operator_mod => "mod" | operator_pow => "pow" | operator_pos => "pos"
  | operator_neg => "neg" | math_function name => name
  | builtins_abs => "abs" | builtins_round => "round"
  end.

Fixpoint str_of (v : value) : outcome string :=
  match v with
  | VInt n =>
      if 10 ^ 4300 <=? Z.abs n then
        Raise (ValueError (limit_detail +:+ limit_advice))
      else Return (str_int n)
  | VBool b => Return (if b then "True" else "False")
  | VFloat f => Return (str_float f)
  | VComplex _ _ => Return "<complex>"
  | VBuiltin f => Return ("<built-in function " +:+ builtin_name f +:+ ">")
  | VTuple items =>
      let fix go (l : list value) : outcome (list string) :=
        match l with
        | [] => Return []
        | x :: l' =>
            match str_of x with
            | Return t =>
                match go l' with
                | Return ts => Return (t :: ts)
                | Raise e => Raise e
                end
            | Raise e => Raise e
            end
        end in
      match go items with
      | Return [t] => Return ("(" +:+ t +:+ ",)")
      | Return ts => Return ("(" +:+ str_join ", " ts +:+ ")")
      | Raise e => Raise e
      end
  end.

Definition console : Console := {| str_value := str_of |}.

End Reference.


(** ** Predicates of the statements *)

(** A computation that leaves the globals as it found them. *)
Definition preserving {A} (m : M A) : Prop := forall g, after (m g) = g.

Fixpoint total_size (l : list node) : nat :=
  match l with
  | [] => O
  | x :: l' => (node_size x + total_size l')%nat
  end.

(** [descendant d n]: [d] is [n] or occurs below it. *)
Inductive descendant : node -> node -> Prop :=
| descendant_self n : descendant n n
| descendant_child d c n :
    In c (iter_child_nodes n) -> descendant d c -> descendant d n.

(** A computation that raises from the globals [g]. *)
Definition raises {A} (m : M A) (g : globals) : Prop :=
  exists e, result (m g) = Raise e.

Definition forbidden_syntax (n : node) : bool :=
  is_Attribute n || is_Subscript n || is_Str n.

Definition walk_messages : list string :=
  ["Attribute access is not allowed";
   "Subscription is not allowed";
   "String literals are not allowed"].

(** The nodes at which [_safe_eval] raises whatever their children do:
    a constant that is no number, an operator missing from its table, a
    call of anything but a whitelisted callable name, a call with keyword
    arguments, a name missing from the table, and every node class
    without a branch. *)
Definition rejected (g : globals) (n : node) : bool :=
  match n with
  | Expression _ | Tuple _ => false
  | Constant (CInt _ | CBool _ | CFloat _) => false
  | Constant _ => true
  | BinOp _ op _ =>
      match _ALLOWED_BINOPS g !! op with None => true | Some _ => false end
  | UnaryOp op _ =>
      match _ALLOWED_UNARYOPS g !! op with None => true | Some _ => false end
  | Call (Name x) _ kws =>
      match _ALLOWED_NAMES g !! x with
      | None => true
      | Some v => negb (callable v) || match kws with [] => false | _ => true end
      end
  | Call _ _ _ => true
  | Name x =>
      match _ALLOWED_NAMES g !! x with None => true | Some _ => false end
  | _ => true
  end.

(** The operators that have a node class but no entry in the tables:
    matrix multiplication, the bitwise operators, inversion, [not],
    comparisons and the boolean operators. *)
Definition excluded_operator (n : node) : bool :=
  match n with
  | BinOp _ (MatMult | LShift | RShift | BitOr | BitXor | BitAnd) _ => true
  | UnaryOp (Invert | Not) _ => true
  | Compare _ _ _ | BoolOp _ _ => true
  | _ => false
  end.

(** No node of the tree is an attribute access, a subscription or a
    string literal. *)
Definition clean (n : node) : Prop :=
  forall d, descendant d n -> forbidden_syntax d = false.

(** The seven operator classes of [_ALLOWED_BINOPS] with the arithmetic
    operation that Python's operator of that name computes. *)
Definition native_operators : list (operator * arith) :=
  [(Add, add); (Sub, sub); (Mult, mul); (Div, truediv);
   (FloorDiv, floordiv); (Mod, mod_); (Pow, pow)].


(** The integer a number stands for, if any: an int is its own value, a
    float has one when it has no fractional part (infinities and NaN
    have none). *)
Definition integer_value (x : number) : option Z :=
  match x with
  | NInt n => Some n
  | NFloat f =>
      if is_integer f then
        match int_of_float f with
        | Return n => Some n
        | Raise _ => None
        end
      else None
  end.

(** The policy on the arguments of [factorial], stated on the numbers:
    exactly one argument, with an integer value, not negative; then
    [math.factorial] on that integer. *)
Definition factorial_policy (H : Host) (xs : list number) : outcome value :=
  match xs with
  | [x] =>
      match integer_value x with
      | Some n =>
          if n <? 0 then Raise (ValueError factorial_message)
          else math_factorial H n
      | None => Raise (ValueError factorial_message)
      end
  | _ => Raise (ValueError factorial_message)
  end.

(** Numbers that [float()] converts: every float, the ints in range. *)
Definition convertible (v : value) (x : number) : Prop :=
  number_of v = Some x /\ exists f, to_float x = Return f.

(** The whitelist on one node, stated positively: a wrapper or a tuple,
    a number, an operator of a table, a name of the table, a call without
    keywords of a name that the table maps to a callable. *)
Definition whitelisted (g : globals) (n : node) : bool :=
  match n with
  | Expression _ | Tuple _ => true
  | Constant (CInt _ | CBool _ | CFloat _) => true
  | BinOp _ op _ =>
      match _ALLOWED_BINOPS g !! op with Some _ => true | None => false end
  | UnaryOp op _ =>
      match _ALLOWED_UNARYOPS g !! op with Some _ => true | None => false end
  | Call (Name x) _ [] =>
      match _ALLOWED_NAMES g !! x with
      | Some v => callable v
      | None => false
      end
  | Name x =>
      match _ALLOWED_NAMES g !! x with Some _ => true | None => false end
  | _ => false
  end.


(** The nodes at depth [k] below the nodes of [a], from left to right. *)
Fixpoint level (k : nat) (a : list node) : list node :=
  match k with
  | O => a
  | S k' => level k' (flat_map iter_child_nodes a)
  end.

(** What [print] wrote, without the prompts of [input]. *)
Definition is_prompt (p : printed) : bool :=
  match p with Prompt _ => true | _ => false end.

Definition prints (out : list printed) : list printed :=
  filter (fun p => negb (is_prompt p)) out.

(** The message of the walk for a node it refuses. *)
Definition walk_message (n : node) : string :=
  if is_Attribute n then "Attribute access is not allowed"
  else if is_Subscript n then "Subscription is not allowed"
  else "String literals are not allowed".




(** The string literals that are no constant with a [str] value: a
    bytes literal and a formatted string. *)
Definition other_literal (n : node) : bool :=
  match n with
  | Constant (CBytes _) => true
  | OtherNode cls _ => String.eqb cls "JoinedStr"
  | _ => false
  end.

(** The words that end the loop of [repl], and the other commands. *)
Definition quit_words : list string := ["quit"; "q"; "exit"].
Definition command_words : list string :=
  ["quit"; "q"; "exit"; "help"; "?"; "history"].

(** Two sessions that are the same but, at most, for one prompt that
    the first one shows and the second one does not. *)
Definition one_more_prompt (t t' : session) : Prop :=
  entries t = entries t' /\
  escaped t = escaped t' /\
  (output t = output t' \/
   exists o1 o2,
     output t' = o1 ++ o2 /\ output t = o1 ++ Prompt "calc> " :: o2).

(** Two runs of the shell that made the same calls, left the same
    globals and returned sessions that [R] relates. *)
Definition related (R : session -> session -> Prop) (r r' : run session)
    : Prop :=
  invoked r = invoked r' /\
  after r = after r' /\
  exists t t', result r = Return t /\ result r' = Return t' /\ R t t'.

(** ** Properties of the monad and of the tree walk *)

Lemma bind_return {A B} (m : M A) (k : A -> M B) (g : globals) (a : A) :
  result (m g) = Return a ->
  bind m k g =
    Run (result (k a (after (m g))))
        (invoked (m g) ++ invoked (k a (after (m g))))
        (after (k a (after (m g)))).
Proof. intros E. unfold bind. rewrite E. reflexivity. Qed.

Lemma bind_raise {A B} (m : M A) (k : A -> M B) (g : globals) (e : exn) :
  result (m g) = Raise e ->
  bind m k g = Run (Raise e) (invoked (m g)) (after (m g)).
Proof. intros E. unfold bind. rewrite E. reflexivity. Qed.

Lemma bind_read {B} (k : globals -> M B) (g : globals) :
  bind read_globals k g = k g g.
Proof. unfold bind. simpl. destruct (k g g); reflexivity. Qed.

Lemma bind_ret {A B} (a : A) (k : A -> M B) (g : globals) :
  bind (ret a) k g = k a g.
Proof. unfold bind. simpl. destruct (k a g); reflexivity. Qed.

Arguments bind : simpl never.

Lemma preserving_ret {A} (a : A) : preserving (ret a).
Proof. intros g. reflexivity. Qed.

Lemma preserving_raise {A} (e : exn) : preserving (@raise A e).
Proof. intros g. reflexivity. Qed.

Lemma preserving_lift {A} (o : outcome A) : preserving (lift o).
Proof. intros g. reflexivity. Qed.

Lemma preserving_invoke f args : preserving (invoke f args).
Proof. intros g. reflexivity. Qed.

Lemma preserving_bind {A B} (m : M A) (k : A -> M B) :
  preserving m -> (forall a, preserving (k a)) -> preserving (bind m k).
Proof.
  intros Hm Hk g. unfold bind.
  destruct (result (m g)) as [a|e]; simpl.
  - rewrite Hk. apply Hm.
  - apply Hm.
Qed.

Lemma preserving_read {B} (k : globals -> M B) :
  (forall g', preserving (k g')) -> preserving (bind read_globals k).
Proof. intros Hk. apply preserving_bind; [intros g; reflexivity | exact Hk]. Qed.

Lemma preserving_mapM {A B} (f : A -> M B) (l : list A) :
  Forall (fun x => preserving (f x)) l -> preserving (mapM f l).
Proof.
  induction 1 as [|x l Hx _ IH]; simpl.
  - apply preserving_ret.
  - apply preserving_bind; [exact Hx|].
    intros y. apply preserving_bind; [exact IH|].
    intros ys. apply preserving_ret.
Qed.

(** When every element is evaluated from the same globals and they are
    preserved, the comprehension returns the values one by one. *)
Lemma mapM_Forall2 {A B} (f : A -> M B) (l : list A) (vs : list B) g :
  (forall x, In x l -> preserving (f x)) ->
  Forall2 (fun x v => result (f x g) = Return v) l vs ->
  result (mapM f l g) = Return vs.
Proof.
  intros Hp HF. induction HF as [|x v l vs Hx _ IH]; simpl.
  - reflexivity.
  - rewrite (bind_return _ _ _ _ Hx). simpl.
    rewrite (Hp x (or_introl eq_refl)).
    rewrite (bind_return _ _ _ _ (IH (fun y Hy => Hp y (or_intror Hy)))).
    reflexivity.
Qed.

Lemma mapM_raises {A B} (f : A -> M B) (l : list A) (c : A) g :
  (forall x, In x l -> preserving (f x)) ->
  In c l ->
  (exists e, result (f c g) = Raise e) ->
  exists e, result (mapM f l g) = Raise e.
Proof.
  intros Hp Hin [e He]. induction l as [|x l IH]; [destruct Hin|].
  simpl. destruct (result (f x g)) as [y|e'] eqn:Ex.
  - rewrite (bind_return _ _ _ _ Ex). simpl.
    rewrite (Hp x (or_introl eq_refl)).
    destruct Hin as [->|Hin]; [congruence|].
    destruct (IH (fun y Hy => Hp y (or_intror Hy)) Hin) as [e2 He2].
    rewrite (bind_raise _ _ _ _ He2). eauto.
  - rewrite (bind_raise _ _ _ _ Ex). eauto.
Qed.

(** *** The log of a computation *)





(** *** Sizes, descendants and the breadth-first walk *)

Lemma total_size_app l1 l2 :
  total_size (l1 ++ l2) = (total_size l1 + total_size l2)%nat.
Proof. induction l1 as [|x l1 IH]; simpl; [reflexivity | rewrite IH; lia]. Qed.

Lemma node_size_children n :
  node_size n = S (total_size (iter_child_nodes n)).
Proof.
  destruct n; simpl; try reflexivity; try lia.
  - rewrite total_size_app. reflexivity.
Qed.

Lemma total_size_In c l : In c l -> (node_size c <= total_size l)%nat.
Proof.
  induction l as [|x l IH]; simpl; [tauto|].
  intros [->|Hin]; [lia | specialize (IH Hin); lia].
Qed.

(** Induction on a node from its children. *)
Lemma node_children_ind (P : node -> Prop) :
  (forall n, (forall c, In c (iter_child_nodes n) -> P c) -> P n) ->
  forall n, P n.
Proof.
  intros step n.
  remember (node_size n) as k eqn:Ek.
  revert n Ek. induction k as [k IH] using lt_wf_ind.
  intros n ->. apply step. intros c Hc.
  apply (IH (node_size c)); [|reflexivity].
  rewrite (node_size_children n).
  pose proof (total_size_In c _ Hc). lia.
Qed.

Lemma walk_queue_sound fuel : forall todo d,
  In d (walk_queue fuel todo) ->
  exists t, In t todo /\ descendant d t.
Proof.
  induction fuel as [|fuel IH]; intros todo d; simpl; [tauto|].
  destruct todo as [|n rest]; simpl; [tauto|].
  intros [<-|Hin].
  - exists n. split; [left; reflexivity | constructor].
  - destruct (IH _ _ Hin) as (t & Ht & Hd).
    apply in_app_or in Ht. destruct Ht as [Ht|Ht].
    + exists t. split; [right; exact Ht | exact Hd].
    + exists n. split; [left; reflexivity|].
      eapply descendant_child; eauto.
Qed.

Lemma walk_queue_complete fuel : forall todo t d,
  (total_size todo <= fuel)%nat ->
  In t todo -> descendant d t ->
  In d (walk_queue fuel todo).
Proof.
  induction fuel as [|fuel IH]; intros todo t d Hfuel Ht Hd.
  - pose proof (total_size_In t _ Ht) as Hs.
    rewrite (node_size_children t) in Hs. lia.
  - destruct todo as [|n rest]; [destruct Ht|]. simpl.
    assert (Hfuel' : (total_size (rest ++ iter_child_nodes n) <= fuel)%nat).
    { rewrite total_size_app. simpl in Hfuel.
      rewrite (node_size_children n) in Hfuel. lia. }
    destruct Ht as [->|Ht].
    + inversion Hd as [|d' c n' Hc Hd']; subst.
      * left; reflexivity.
      * right. apply (IH _ c d Hfuel'); [|exact Hd'].
        apply in_or_app. right. exact Hc.
    + right. apply (IH _ t d Hfuel'); [|exact Hd].
      apply in_or_app. left. exact Ht.
Qed.

(** [ast.walk] yields exactly the descendants of the tree. *)
Lemma walk_descendant tree d : In d (walk tree) <-> descendant d tree.
Proof.
  unfold walk. split.
  - intros Hin. destruct (walk_queue_sound _ _ _ Hin) as (t & [<-|[]] & Hd).
    exact Hd.
  - intros Hd. apply (walk_queue_complete _ [tree] tree d).
    + simpl. lia.
    + left; reflexivity.
    + exact Hd.
Qed.

(** *** The order of the walk *)

Lemma total_size_level a :
  total_size a
    = (length a + total_size (flat_map iter_child_nodes a))%nat.
Proof.
  induction a as [|x a IH]; simpl; [reflexivity|].
  rewrite total_size_app, (node_size_children x), IH. lia.
Qed.

(** The walk first yields the nodes of the queue, while their children
    line up behind them. *)
Lemma walk_queue_front a : forall fuel c,
  (length a <= fuel)%nat ->
  walk_queue fuel (a ++ c)
    = a ++ walk_queue (fuel - length a) (c ++ flat_map iter_child_nodes a).
Proof.
  induction a as [|x a IH]; intros fuel c Hfuel; simpl.
  - rewrite Nat.sub_0_r, app_nil_r. reflexivity.
  - destruct fuel as [|fuel]; [simpl in Hfuel; lia|]. simpl.
    rewrite <- app_assoc, IH by (simpl in Hfuel; lia).
    rewrite <- app_assoc. reflexivity.
Qed.

(** The walk yields the nodes of depth [k] in one stretch, from left to
    right, after nodes of smaller depth only. *)
Lemma walk_queue_level k : forall fuel a,
  (total_size a <= fuel)%nat ->
  exists before rest,
    walk_queue fuel a = before ++ level k a ++ rest /\
    forall d, In d before -> exists j, (j < k)%nat /\ In d (level j a).
Proof.
  induction k as [|k IH]; intros fuel a Hfuel;
    pose proof (total_size_level a) as Hsize;
    pose proof (walk_queue_front a fuel [] ltac:(lia)) as Hfront;
    rewrite app_nil_r in Hfront; simpl in Hfront.
  - exists [], (walk_queue (fuel - length a) (flat_map iter_child_nodes a)).
    split; [exact Hfront | intros d []].
  - destruct (IH (fuel - length a)%nat (flat_map iter_child_nodes a)
                ltac:(lia)) as (before & rest & Hw & Hb).
    exists (a ++ before), rest. split.
    + rewrite Hfront, Hw, <- app_assoc. reflexivity.
    + intros d Hd. apply in_app_or in Hd. destruct Hd as [Hd|Hd].
      * exists O. split; [lia | exact Hd].
      * destruct (Hb d Hd) as (j & Hj & Hin).
        exists (S j). split; [lia | exact Hin].
Qed.

(** The children of a node of depth [k] have depth [k + 1]. *)
Lemma level_children k : forall a d c,
  In d (level k a) -> In c (iter_child_nodes d) -> In c (level (S k) a).
Proof.
  induction k as [|k IH]; intros a d c Hd Hc.
  - simpl. apply in_flat_map. exists d. split; assumption.
  - apply (IH (flat_map iter_child_nodes a) d c Hd Hc).
Qed.

(** ** Properties of the evaluator, for every host *)

Section Properties.

Context (H : Host).

Lemma raises_raise {A} (e : exn) g : raises (@raise A e) g.
Proof. exists e. reflexivity. Qed.

Lemma raises_bind_l {A B} (m : M A) (k : A -> M B) g :
  raises m g -> raises (bind m k) g.
Proof. intros [e He]. exists e. rewrite (bind_raise _ _ _ _ He). reflexivity. Qed.

Lemma raises_bind_r {A B} (m : M A) (k : A -> M B) g :
  preserving m -> (forall a, raises (k a) g) -> raises (bind m k) g.
Proof.
  intros Hm Hk. destruct (result (m g)) as [a|e] eqn:E.
  - destruct (Hk a) as [e He]. exists e.
    rewrite (bind_return _ _ _ _ E). simpl. rewrite Hm. exact He.
  - apply raises_bind_l. exists e. exact E.
Qed.

Lemma raises_read {B} (k : globals -> M B) g :
  raises (k g) g -> raises (bind read_globals k) g.
Proof. intros [e He]. exists e. unfold bind. simpl. rewrite He. reflexivity. Qed.

Lemma preserving_factorial_branch args : preserving (factorial_branch H args).
Proof.
  unfold factorial_branch.
  destruct args as [|a [|b args]]; try apply preserving_raise.
  apply preserving_bind; [apply preserving_lift|]. intros f.
  destruct (negb (is_integer f)); [apply preserving_raise|].
  apply preserving_bind; [apply preserving_lift|]. intros [|];
    [apply preserving_raise|].
  apply preserving_bind; [apply preserving_lift|]. intros n.
  apply preserving_bind; [apply preserving_invoke|]. intros _.
  apply preserving_lift.
Qed.

(** [_safe_eval] never writes to the tables. *)
Lemma preserving_safe_eval n : preserving (_safe_eval H n).
Proof.
  induction n as [n IH] using node_children_ind.
  destruct n; simpl in *.
  - apply IH. left; reflexivity.
  - destruct value0; first [apply preserving_ret | apply preserving_raise].
  - apply preserving_read. intros g'.
    destruct (_ALLOWED_BINOPS g' !! op); [|apply preserving_raise].
    apply preserving_bind; [apply IH; auto|]. intros ?.
    apply preserving_bind; [apply IH; auto|]. intros ?.
    apply preserving_bind; [apply preserving_invoke|]. intros _.
    apply preserving_lift.
  - apply preserving_read. intros g'.
    destruct (_ALLOWED_UNARYOPS g' !! op); [|apply preserving_raise].
    apply preserving_bind; [apply IH; auto|]. intros ?.
    apply preserving_bind; [apply preserving_invoke|]. intros _.
    apply preserving_lift.
  - destruct n; try apply preserving_raise.
    apply preserving_read. intros g'.
    destruct (_ALLOWED_NAMES g' !! id); [|apply preserving_raise].
    destruct (negb (callable v)); [apply preserving_raise|].
    apply preserving_bind.
    + apply preserving_mapM. apply List.Forall_forall. intros x Hx.
      apply IH. right. apply in_or_app. left. exact Hx.
    + intros vs. destruct keywords; [|apply preserving_raise].
      destruct (String.eqb id "factorial").
      * apply preserving_factorial_branch.
      * apply preserving_bind; [apply preserving_invoke|]. intros _.
        apply preserving_lift.
  - apply preserving_raise.
  - apply preserving_read. intros g'.
    destruct (_ALLOWED_NAMES g' !! id); [apply preserving_ret | apply preserving_raise].
  - apply preserving_bind.
    + apply preserving_mapM. apply List.Forall_forall. intros x Hx.
      apply IH. exact Hx.
    + intros vs. apply preserving_ret.
  - apply preserving_raise.
  - apply preserving_raise.
  - apply preserving_raise.
  - apply preserving_raise.
  - apply preserving_raise.
Qed.

(** *** The loop over [ast.walk] *)

Lemma disallow_raises nodes :
  (exists d, In d nodes /\ forbidden_syntax d = true) ->
  exists msg, In msg walk_messages /\
    forall g, disallow nodes g = Run (Raise (ValueError msg)) [] g.
Proof.
  intros (d & Hin & Hd). induction nodes as [|n rest IH]; [destruct Hin|].
  simpl. unfold walk_messages.
  destruct (is_Attribute n) eqn:Ea; [eexists; split; [|reflexivity]; simpl; auto|].
  destruct (is_Subscript n) eqn:Es; [eexists; split; [|reflexivity]; simpl; auto|].
  destruct (is_Str n) eqn:Et; [eexists; split; [|reflexivity]; simpl; auto 6|].
  destruct Hin as [->|Hin].
  - unfold forbidden_syntax in Hd. rewrite Ea, Es, Et in Hd. discriminate.
  - apply IH. exact Hin.
Qed.

Lemma disallow_passes nodes g :
  (forall d, In d nodes -> forbidden_syntax d = false) ->
  disallow nodes g = Run (Return tt) [] g.
Proof.
  induction nodes as [|n rest IH]; intros Hall; [reflexivity|].
  simpl. pose proof (Hall n (or_introl eq_refl)) as Hn.
  unfold forbidden_syntax in Hn.
  apply orb_false_elim in Hn. destruct Hn as [Hn Ht].
  apply orb_false_elim in Hn. destruct Hn as [Ha Hs].
  rewrite Ha, Hs, Ht. apply IH. intros d Hd. apply Hall. right. exact Hd.
Qed.

(** *** What [_safe_eval] rejects *)

Lemma rejected_raises g n :
  rejected g n = true -> raises (_safe_eval H n) g.
Proof.
  destruct n; simpl; try discriminate; try (intros _; apply raises_raise).
  - destruct value0; try discriminate; intros _; apply raises_raise.
  - intros Hr. apply raises_read.
    destruct (_ALLOWED_BINOPS g !! op); [discriminate | apply raises_raise].
  - intros Hr. apply raises_read.
    destruct (_ALLOWED_UNARYOPS g !! op); [discriminate | apply raises_raise].
  - destruct n; try (intros _; apply raises_raise).
    intros Hr. apply raises_read.
    destruct (_ALLOWED_NAMES g !! id); [|apply raises_raise].
    destruct (negb (callable v)); [apply raises_raise|].
    simpl in Hr. apply raises_bind_r.
    + apply preserving_mapM. apply List.Forall_forall.
      intros x _. apply preserving_safe_eval.
    + intros vs. destruct keywords; [discriminate | apply raises_raise].
  - intros Hr. apply raises_read.
    destruct (_ALLOWED_NAMES g !! id); [discriminate | apply raises_raise].
Qed.

(** An exception in a child is an exception of the node: every child is
    either evaluated or the node raises before reaching it. *)
Lemma raise_propagates g n c :
  In c (iter_child_nodes n) ->
  raises (_safe_eval H c) g -> raises (_safe_eval H n) g.
Proof.
  intros Hin Hc.
  assert (Hp : forall (l : list node) x, In x l -> preserving (_safe_eval H x))
    by (intros; apply preserving_safe_eval).
  destruct n; simpl in Hin |- *; try apply raises_raise.
  - destruct Hin as [->|[]]. exact Hc.
  - destruct Hin.
  - apply raises_read.
    destruct (_ALLOWED_BINOPS g !! op); [|apply raises_raise].
    destruct Hin as [->|[->|[]]].
    + apply raises_bind_l. exact Hc.
    + apply raises_bind_r; [apply preserving_safe_eval|].
      intros a. apply raises_bind_l. exact Hc.
  - apply raises_read.
    destruct (_ALLOWED_UNARYOPS g !! op); [|apply raises_raise].
    destruct Hin as [->|[]]. apply raises_bind_l. exact Hc.
  - destruct n; try apply raises_raise.
    apply raises_read.
    destruct (_ALLOWED_NAMES g !! id) as [v|] eqn:El; [|apply raises_raise].
    destruct (negb (callable v)); [apply raises_raise|].
    destruct Hin as [<-|Hin].
    + exfalso. destruct Hc as [e He]. simpl in He. unfold bind in He.
      simpl in He. rewrite El in He. discriminate.
    + apply in_app_or in Hin. destruct Hin as [Hin|Hin].
      * apply raises_bind_l. eapply mapM_raises; eauto.
      * apply raises_bind_r.
        { apply preserving_mapM. apply List.Forall_forall.
          intros x _. apply preserving_safe_eval. }
        intros vs. destruct keywords; [destruct Hin | apply raises_raise].
  - destruct Hin.
  - apply raises_bind_l. eapply mapM_raises; eauto.
Qed.

Lemma descendant_rejected_raises g n d :
  descendant d n -> rejected g d = true -> raises (_safe_eval H n) g.
Proof.
  induction 1 as [n|d c n Hc _ IH]; intros Hr.
  - apply rejected_raises. exact Hr.
  - eapply raise_propagates; eauto.
Qed.

Lemma forbidden_rejected g d : forbidden_syntax d = true -> rejected g d = true.
Proof.
  destruct d; simpl; try discriminate; try reflexivity.
  destruct value0; simpl; try discriminate; reflexivity.
Qed.

(** Whatever evaluates without an exception passes the walk. *)
Lemma returns_passes_walk g tree v :
  result (_safe_eval H tree g) = Return v ->
  disallow (walk tree) g = Run (Return tt) [] g.
Proof.
  intros Hv. apply disallow_passes. intros d Hd.
  destruct (forbidden_syntax d) eqn:Ef; [|reflexivity].
  apply walk_descendant in Hd.
  destruct (descendant_rejected_raises g tree d Hd (forbidden_rejected g d Ef))
    as [e He].
  congruence.
Qed.

Lemma preserving_disallow nodes : preserving (disallow nodes).
Proof.
  induction nodes as [|n rest IH]; intros g; simpl; [reflexivity|].
  destruct (is_Attribute n); [reflexivity|].
  destruct (is_Subscript n); [reflexivity|].
  destruct (is_Str n); [reflexivity|]. apply IH.
Qed.


(** [evaluate] never writes to the tables either. *)
Lemma preserving_evaluate expr : preserving (evaluate H expr).
Proof.
  unfold evaluate.
  destruct (ast_parse H expr); [|apply preserving_raise..].
  apply preserving_bind; [apply preserving_disallow|].
  intros _. apply preserving_safe_eval.
Qed.

(** A parsed text whose tree passes the walk evaluates as its tree. *)
Lemma evaluate_parsed expr tree g :
  ast_parse H expr = Parsed tree ->
  disallow (walk tree) g = Run (Return tt) [] g ->
  evaluate H expr g = _safe_eval H tree g.
Proof.
  intros Hp Hw. unfold evaluate. rewrite Hp. unfold bind. rewrite Hw. simpl.
  destruct (_safe_eval H tree g); reflexivity.
Qed.

(** A parsed text whose tree the walk refuses never reaches
    [_safe_eval]. *)
Lemma evaluate_refused expr tree g e :
  ast_parse H expr = Parsed tree ->
  disallow (walk tree) g = Run (Raise e) [] g ->
  evaluate H expr g = Run (Raise e) [] g.
Proof.
  intros Hp Hw. unfold evaluate. rewrite Hp. unfold bind. rewrite Hw.
  reflexivity.
Qed.

(** A parsed text whose tree holds a rejected node raises, from the walk
    or from [_safe_eval]. *)
Lemma evaluate_rejected expr tree d g :
  ast_parse H expr = Parsed tree ->
  descendant d tree -> rejected g d = true ->
  raises (evaluate H expr) g.
Proof.
  intros Hp Hd Hr. unfold evaluate. rewrite Hp.
  apply raises_bind_r; [apply preserving_disallow|].
  intros _. eapply descendant_rejected_raises; eauto.
Qed.

(** The two operands of a whitelisted binary operator are evaluated left
    to right and handed to the function the table gives. *)
Lemma safe_eval_BinOp l op r g func a b :
  _ALLOWED_BINOPS g !! op = Some func ->
  result (_safe_eval H l g) = Return a ->
  result (_safe_eval H r g) = Return b ->
  result (_safe_eval H (BinOp l op r) g) = call H func [a; b].
Proof.
  intros Hf Hl Hr. simpl. rewrite Hf.
  rewrite (bind_return _ _ _ _ Hl). simpl.
  rewrite (preserving_safe_eval l g).
  rewrite (bind_return _ _ _ _ Hr). reflexivity.
Qed.

End Properties.

(** ** Further properties used by the claims *)

Lemma excluded_rejected d :
  excluded_operator d = true -> rejected module_globals d = true.
Proof.
  destruct d as [| |? op ?|op ?| | | | | | | | |];
    try discriminate; try (intros _; reflexivity);
    destruct op; try discriminate; intros _; vm_compute; reflexivity.
Qed.

Lemma keyword_call_rejected g func args keywords :
  keywords <> [] -> rejected g (Call func args keywords) = true.
Proof.
  intros Hk. destruct func; try reflexivity. simpl.
  destruct (_ALLOWED_NAMES g !! id); [|reflexivity].
  destruct keywords; [congruence|]. apply orb_true_r.
Qed.

Lemma other_literal_rejected g d :
  other_literal d = true -> rejected g d = true.
Proof.
  destruct d as [|c| | | | | | | | | | |]; simpl; try discriminate;
    try (intros _; reflexivity).
  destruct c; simpl; try discriminate; reflexivity.
Qed.

(** *** The module body *)

(** Whatever the three names were bound to before, the module body
    leaves the same three tables. *)
Lemma module_body_builds g : after (module_body g) = module_globals.
Proof. reflexivity. Qed.

(** The module body does rebind the globals: it is a computation that
    is not [preserving]. *)
Lemma module_body_writes : ~ preserving module_body.
Proof.
  intros Hp. specialize (Hp unbound).
  assert (E : _ALLOWED_BINOPS (after (module_body unbound)) !! Add
              = _ALLOWED_BINOPS unbound !! Add) by (rewrite Hp; reflexivity).
  vm_compute in E. discriminate.
Qed.

(** *** Trees that pass the walk *)


Lemma clean_node n :
  forbidden_syntax n = false ->
  (forall c, In c (iter_child_nodes n) -> clean c) ->
  clean n.
Proof.
  intros Hn Hc d Hd. inversion Hd as [|d' c n' Hin Hd']; subst.
  - exact Hn.
  - exact (Hc c Hin d Hd').
Qed.

Lemma clean_passes n g :
  clean n -> disallow (walk n) g = Run (Return tt) [] g.
Proof.
  intros Hc. apply disallow_passes. intros d Hd. apply Hc.
  apply walk_descendant. exact Hd.
Qed.



(** *** Binary operators *)

Lemma allowed_binop_native (H : Host) op k :
  In (op, k) native_operators ->
  exists func,
    _ALLOWED_BINOPS module_globals !! op = Some func /\
    forall a b, call H func [a; b] = py_arith H k a b.
Proof.
  unfold native_operators. simpl.
  intros [E|[E|[E|[E|[E|[E|[E|[]]]]]]]]; inversion E; subst;
    eexists; (split; [vm_compute; reflexivity | reflexivity]).
Qed.

(** *** Division by zero *)


(** *** Operator calls that raise *)











(** *** Integers as floats *)

Lemma digits2_pos_iter_xO p d :
  Z.pos (digits2_pos (Pos.iter xO p d)) = Z.pos (digits2_pos p) + Z.pos d.
Proof.
  induction d as [|d IH] using Pos.peano_ind.
  - simpl. lia.
  - rewrite Pos.iter_succ. simpl. lia.
Qed.

Lemma Zpos_iter_xO p d :
  Z.pos (Pos.iter xO p d) = Z.pos p * 2 ^ Z.pos d.
Proof.
  induction d as [|d IH] using Pos.peano_ind.
  - simpl. lia.
  - rewrite Pos.iter_succ, Pos2Z.inj_succ, Z.pow_succ_r by lia.
    rewrite Pos2Z.inj_xO, IH. lia.
Qed.

Lemma shr_fexp_exponent m e l :
  e <= snd (shr_fexp prec emax m e l).
Proof.
  unfold shr_fexp, shr.
  destruct (fexp prec emax (Zdigits2 m + e) - e); simpl; lia.
Qed.

(** Rounding never lowers the exponent. *)
Lemma binary_round_aux_exponent s m e l :
  match binary_round_aux prec emax s m e l with
  | S754_finite _ _ e' => e <= e'
  | _ => True
  end.
Proof.
  unfold binary_round_aux.
  pose proof (shr_fexp_exponent m e l) as H1.
  destruct (shr_fexp prec emax m e l) as [mrs' e']. simpl in H1.
  pose proof (shr_fexp_exponent
                (round_nearest_even (shr_m mrs') (loc_of_shr_record mrs'))
                e' loc_Exact) as H2.
  destruct (shr_fexp prec emax _ e' loc_Exact) as [mrs'' e'']. simpl in H2.
  destruct (shr_m mrs''); try exact I.
  destruct (e'' <=? emax - prec); [lia | exact I].
Qed.

(** A mantissa already aligned on its exponent is left as it is. *)
Lemma binary_round_aux_aligned s m e :
  fexp prec emax (Z.pos (digits2_pos m) + e) = e ->
  e <= emax - prec ->
  binary_round_aux prec emax s (Z.pos m) e loc_Exact = S754_finite s m e.
Proof.
  intros Hf He. unfold binary_round_aux, shr_fexp. simpl Zdigits2.
  rewrite Hf, Z.sub_diag. simpl.
  rewrite Hf, Z.sub_diag. simpl.
  apply Z.leb_le in He. rewrite He. reflexivity.
Qed.

Lemma binary_round_integer s p :
  match binary_round prec emax s p 0 with
  | S754_finite _ m e => (0 <=? e) || (Z.pos m mod 2 ^ (- e) =? 0) = true
  | _ => True
  end.
Proof.
  unfold binary_round, shl_align.
  remember (fexp prec emax (Z.pos (digits2_pos p) + 0)) as e0 eqn:Ee0.
  destruct (e0 - 0) as [|q|q] eqn:Ed.
  - pose proof (binary_round_aux_exponent s (Z.pos p) 0 loc_Exact) as Hx.
    destruct (binary_round_aux prec emax s (Z.pos p) 0 loc_Exact);
      try exact I.
    apply orb_true_intro. left. apply Z.leb_le. exact Hx.
  - pose proof (binary_round_aux_exponent s (Z.pos p) 0 loc_Exact) as Hx.
    destruct (binary_round_aux prec emax s (Z.pos p) 0 loc_Exact);
      try exact I.
    apply orb_true_intro. left. apply Z.leb_le. exact Hx.
  - assert (He0 : e0 = Z.neg q) by lia.
    rewrite binary_round_aux_aligned.
    + apply orb_true_intro. right. apply Z.eqb_eq.
      rewrite Zpos_iter_xO, He0. simpl Z.opp.
      apply Z.mod_mul. apply Z.pow_nonzero; lia.
    + rewrite digits2_pos_iter_xO, He0.
      replace (Z.pos (digits2_pos p) + Z.pos q + Z.neg q)
        with (Z.pos (digits2_pos p) + 0) by lia.
      rewrite <- Ee0. exact He0.
    + rewrite He0. unfold emax, prec. lia.
Qed.

Lemma iter_pos_invariant {A} (P : A -> Prop) (f : A -> A) :
  (forall x, P x -> P (f x)) ->
  forall n x, P x -> P (SpecFloat.iter_pos f n x).
Proof. intros Hf. induction n; simpl; auto. Qed.

Lemma shr_1_nonneg mrs : 0 <= shr_m mrs -> 0 <= shr_m (shr_1 mrs).
Proof.
  destruct mrs as [m r s]. simpl.
  destruct m as [|q|q]; [| |lia]; intros _; [|destruct q]; simpl; lia.
Qed.

Lemma shr_fexp_nonneg m e l :
  0 <= m -> 0 <= shr_m (fst (shr_fexp prec emax m e l)).
Proof.
  intros Hm. unfold shr_fexp, shr.
  assert (H0 : 0 <= shr_m (shr_record_of_loc m l))
    by (destruct l as [|[]]; simpl; exact Hm).
  destruct (fexp prec emax (Zdigits2 m + e) - e); simpl; try exact H0.
  apply (iter_pos_invariant (fun x => 0 <= shr_m x)); [|exact H0].
  apply shr_1_nonneg.
Qed.

Lemma round_nearest_even_nonneg m l :
  0 <= m -> 0 <= round_nearest_even m l.
Proof.
  intros Hm. destruct l as [|[]]; simpl; try destruct (Z.even m); lia.
Qed.

(** Rounding a magnitude never gives NaN. *)
Lemma binary_round_aux_not_nan s m e l :
  0 <= m -> binary_round_aux prec emax s m e l <> S754_nan.
Proof.
  intros Hm. unfold binary_round_aux.
  pose proof (shr_fexp_nonneg m e l Hm) as H1.
  destruct (shr_fexp prec emax m e l) as [mrs' e']. simpl in H1.
  pose proof (shr_fexp_nonneg _ e' loc_Exact
                (round_nearest_even_nonneg (shr_m mrs')
                   (loc_of_shr_record mrs') H1)) as H2.
  destruct (shr_fexp prec emax _ e' loc_Exact) as [mrs'' e'']. simpl in H2.
  destruct (shr_m mrs''); [discriminate | | lia].
  destruct (e'' <=? emax - prec); discriminate.
Qed.

Lemma binary_round_not_nan s p e :
  binary_round prec emax s p e <> S754_nan.
Proof.
  unfold binary_round.
  destruct (shl_align p e _) as [mz ez].
  apply binary_round_aux_not_nan. lia.
Qed.

(** [float(n).is_integer()] holds for every int that converts. *)
Lemma float_of_int_is_integer n f :
  float_of_int n = Some f -> is_integer f = true.
Proof.
  unfold float_of_int, binary_normalize.
  destruct n as [|p|p].
  - intros E. inversion E. reflexivity.
  - pose proof (binary_round_integer false p) as Hi.
    pose proof (binary_round_not_nan false p 0) as Hn.
    destruct (binary_round prec emax false p 0); intros E; inversion E; subst;
      try reflexivity; [congruence | exact Hi].
  - pose proof (binary_round_integer true p) as Hi.
    pose proof (binary_round_not_nan true p 0) as Hn.
    destruct (binary_round prec emax true p 0); intros E; inversion E; subst;
      try reflexivity; [congruence | exact Hi].
Qed.

(** An integral float is negative exactly when its integer value is. *)
Lemma int_of_float_sign f :
  is_integer f = true ->
  exists n, int_of_float f = Return n /\ (n <? 0) = float_negative f.
Proof.
  destruct f as [s|s| |s m e]; simpl; try discriminate.
  - intros _. exists 0. split; [reflexivity|]. destruct s; reflexivity.
  - intros Hi. eexists. split; [reflexivity|].
    assert (Hpos : 0 < (if 0 <=? e then Z.pos m * 2 ^ e
                        else Z.pos m / 2 ^ (- e))).
    { destruct (0 <=? e) eqn:Ee.
      - apply Z.leb_le in Ee. apply Z.mul_pos_pos; [lia|].
        apply Z.pow_pos_nonneg; lia.
      - simpl in Hi. apply Z.eqb_eq in Hi. apply Z.leb_gt in Ee.
        assert (Hp : 0 < 2 ^ (- e)) by (apply Z.pow_pos_nonneg; lia).
        pose proof (Z.div_mod (Z.pos m) (2 ^ (- e)) ltac:(lia)) as Hdm.
        rewrite Hi in Hdm. nia. }
    unfold float_negative, SFltb. simpl.
    destruct s; simpl.
    + apply Z.ltb_lt. lia.
    + apply Z.ltb_ge. lia.
Qed.

(** *** The factorial branch *)

Lemma bind_lift_return {A B} (a : A) (k : A -> M B) g :
  bind (lift (Return a)) k g = k a g.
Proof. apply (bind_ret a k g). Qed.

Lemma bind_lift_raise {A B} (e : exn) (k : A -> M B) g :
  bind (lift (Raise e)) k g = Run (Raise e) [] g.
Proof. reflexivity. Qed.

Lemma factorial_branch_policy (H : Host) vs xs g :
  Forall2 convertible vs xs ->
  result (factorial_branch H vs g) = factorial_policy H xs.
Proof.
  intros HF. destruct HF as [|v x vs xs [Hv [f Hf]] HF]; [reflexivity|].
  destruct HF as [|v' x' vs xs _ _]; [|reflexivity].
  unfold factorial_branch, factorial_policy, py_float, py_negative, py_int.
  rewrite Hv, Hf, bind_lift_return.
  destruct x as [n|fx]; simpl in Hf |- *.
  - destruct (float_of_int n) as [f'|] eqn:En; [|discriminate].
    inversion Hf; subst f'.
    rewrite (float_of_int_is_integer n f En). simpl.
    destruct (n <? 0); [reflexivity|].
    rewrite bind_lift_return. reflexivity.
  - inversion Hf; subst fx.
    destruct (is_integer f) eqn:Ei; [|reflexivity]. simpl.
    destruct (int_of_float_sign f Ei) as (n & Hn & Hs).
    rewrite Hn, <- Hs.
    destruct (n <? 0); [reflexivity|].
    rewrite bind_lift_return. reflexivity.
Qed.

Lemma safe_eval_factorial (H : Host) args g func vs :
  _ALLOWED_NAMES g !! "factorial" = Some func ->
  callable func = true ->
  result (mapM (_safe_eval H) args g) = Return vs ->
  result (_safe_eval H (Call (Name "factorial") args []) g)
    = result (factorial_branch H vs g).
Proof.
  intros Hf Hc Hvs. simpl. rewrite Hf, Hc. simpl.
  rewrite (bind_return _ _ _ _ Hvs). simpl.
  rewrite preserving_mapM; [reflexivity|].
  apply List.Forall_forall. intros x _. apply preserving_safe_eval.
Qed.

(** ** The reference host at work

    Checks of the reference parser and of the float model against what
    CPython prints. *)

Example parse_left_associative :
  Reference.parse "1 - 2 - 3"
    = Parsed (Expression
        (BinOp (BinOp (Constant (CInt 1)) Sub (Constant (CInt 2))) Sub
           (Constant (CInt 3)))).
Proof. vm_compute. reflexivity. Qed.

Example parse_call_in_tuple :
  Reference.parse "sin(a.b[0], 'x'), (1,), f()"
    = Parsed (Expression
        (Tuple
           [Call (Name "sin")
              [Subscript (Attribute (Name "a") "b") (Constant (CInt 0));
               Constant (CStr "x")] [];
            Tuple [Constant (CInt 1)];
            Call (Name "f") [] []])).
Proof. vm_compute. reflexivity. Qed.

Example parse_comparison_chain :
  Reference.parse "a < b <= c and not d | e"
    = Parsed (Expression
        (BoolOp And
           [Compare (Name "a") [Lt_; LtE] [Name "b"; Name "c"];
            UnaryOp Not (BinOp (Name "d") BitOr (Name "e"))])).
Proof. vm_compute. reflexivity. Qed.

Example parse_rejects :
  map Reference.parse [""; " 1"; "1 +"; "01"; "f(a=1, 2)"; "f(None=1)";
                       "(1, 2"; "1)"; "1__0"; "'abc"; "f'{}'"]
    = [SyntaxError "invalid syntax (<unknown>, line 0)";
       SyntaxError "unexpected indent (<unknown>, line 1)";
       SyntaxError "invalid syntax (<unknown>, line 1)";
       SyntaxError
         ("leading zeros in decimal integer literals are not permitted; "
          +:+ "use an 0o prefix for octal integers (<unknown>, line 1)");
       SyntaxError
         "positional argument follows keyword argument (<unknown>, line 1)";
       SyntaxError "cannot assign to None (<unknown>, line 1)";
       SyntaxError "'(' was never closed (<unknown>, line 1)";
       SyntaxError "unmatched ')' (<unknown>, line 1)";
       SyntaxError "invalid decimal literal (<unknown>, line 1)";
       SyntaxError
         "unterminated string literal (detected at line 1) (<unknown>, line 1)";
       SyntaxError
         "f-string: empty expression not allowed (<unknown>, line 1)"].
Proof. vm_compute. reflexivity. Qed.

(** Literals: digit separators, literals next to each other, bytes, a
    formatted string, and a comment after the expression. *)
Example parse_literals :
  Reference.parse "1_000, 'a' 'b', b'x', f'n={{{n}}}' # four"
    = Parsed (Expression
        (Tuple
           [Constant (CInt 1000);
            Constant (CStr "ab");
            Constant (CBytes "x");
            OtherNode "JoinedStr"
              [Constant (CStr "n={");
               OtherNode "FormattedValue" [Name "n"];
               Constant (CStr "}")]])).
Proof. vm_compute. reflexivity. Qed.

(** An int literal of 4301 digits is refused, as by [ast.parse] since
    the limit on the conversion of ints exists; one of 4300 digits is
    read. *)
Example parse_huge_literal :
  Reference.parse (string_of_list_ascii (repeat "9"%char 4300))
    = Parsed (Expression (Constant (CInt (10 ^ 4300 - 1)))) /\
  Reference.parse (string_of_list_ascii (repeat "9"%char 4301))
    = SyntaxError
        ("Exceeds the limit (4300 digits) for integer string conversion: "
         +:+ "value has 4301 digits; use sys.set_int_max_str_digits() to "
         +:+ "increase the limit - Consider hexadecimal for huge integer "
         +:+ "literals to avoid decimal conversion limits. "
         +:+ "(<unknown>, line 1)").
Proof. split; vm_compute; reflexivity. Qed.

(** [0.1] is [0x1.999999999999ap-4]. *)
Example literal_one_tenth :
  Reference.parse "0.1"
    = Parsed (Expression
        (Constant (CFloat (S754_finite false 7205759403792794 (-56))))).
Proof. vm_compute. reflexivity. Qed.

(** [0.1 + 0.2] is [0.30000000000000004], and [1/3] is
    [0x1.5555555555555p-2]. *)
Example float_arithmetic_rounds :
  result (evaluate Reference.bare "0.1 + 0.2" module_globals)
    = result (evaluate Reference.bare "0.30000000000000004" module_globals) /\
  result (evaluate Reference.bare "1/3" module_globals)
    = Return (VFloat (S754_finite false 6004799503160661 (-54))).
Proof. split; vm_compute; reflexivity. Qed.

(** [float(2**53 + 1)] is [2.0**53] (ties to even), and the first int
    that [float()] refuses is [2**1024 - 2**970]. *)
Example float_of_int_rounds :
  float_of_int (2 ^ 53 + 1) = Some (S754_finite false (2 ^ 52) 1) /\
  float_of_int (2 ^ 1024 - 2 ^ 970 - 1)
    = Some (S754_finite false (2 ^ 53 - 1) 971) /\
  float_of_int (2 ^ 1024 - 2 ^ 970) = None.
Proof. repeat split; vm_compute; reflexivity. Qed.

(** Floor division and remainder follow the sign of the divisor. *)
Example floor_division_signs :
  map (fun text => result (evaluate Reference.bare text module_globals))
      ["7 // 2"; "-7 // 2"; "7 % -3"; "-7 % 3"; "7 / 2"]
    = [Return (VInt 3); Return (VInt (-4)); Return (VInt (-2));
       Return (VInt 2);
       Return (VFloat (S754_finite false 7881299347898368 (-51)))].
Proof. vm_compute. reflexivity. Qed.

(** The outcome depends on the tables: before the module body has run
    there is no operator to look up. *)
Example evaluate_reads_the_tables :
  result (evaluate Reference.bare "1 + 1" unbound)
    = Raise (ValueError "Binary operator Add is not allowed") /\
  result (evaluate Reference.bare "1 + 1" (after (module_body unbound)))
    = Return (VInt 2).
Proof. split; vm_compute; reflexivity. Qed.

(** The messages of the rejections met along the way. *)
Example rejection_messages :
  map (fun text => result (evaluate Reference.bare text module_globals))
      ["sin(a[0])"; "'x'"; "1 | 2"; "~1"; "foo(1)"; "pi(1)"; "x";
       "sin(1)(2)"; "None"; "1 +"]
    = [Raise (ValueError "Subscription is not allowed");
       Raise (ValueError "String literals are not allowed");
       Raise (ValueError "Binary operator BitOr is not allowed");
       Raise (ValueError "Unary operator Invert is not allowed");
       Raise (ValueError "Function 'foo' is not allowed");
       Raise (ValueError "Function 'pi' is not allowed");
       Raise (ValueError "Name 'x' is not allowed");
       Raise (ValueError "Only direct function calls are allowed");
       Raise (ValueError "Constants of type <class 'NoneType'> are not allowed");
       Raise (ValueError "Syntax error: invalid syntax (<unknown>, line 1)")].
Proof. vm_compute. reflexivity. Qed.

(** ** The claims of the specification

    Reading of the specification's error taxonomy: the source has no
    error classes of its own.  Every rejection by the evaluator is a
    Python [ValueError] told apart by its message; a fault of the host's
    arithmetic reaches the caller as the host's own exception
    ([ZeroDivisionError], [OverflowError], [TypeError], or the math
    library's [ValueError]).  An error result is a raised exception,
    [Raise e] here. *)

(** C1, as the code has it.  A text whose syntax tree holds, at any
    depth, an attribute access, a subscription, a string literal or an
    operator outside the allowed set makes [evaluate] raise.  For an
    attribute access, a subscription and a string literal that is a
    constant with a [str] value, the exception is one of the three
    messages of the walk over the whole tree, it is raised before
    [_safe_eval] runs, and no function of the tables has been called.
    The other string literals (a bytes literal, a formatted string) are
    refused as well, but by [_safe_eval], when it reaches them. *)
Theorem excluded_constructs_rejected
    (H : Host) (expr : string) (tree d : node) :
  ast_parse H expr = Parsed tree ->
  descendant d tree ->
  forbidden_syntax d = true \/ excluded_operator d = true
    \/ other_literal d = true ->
  (exists e, result (evaluate H expr module_globals) = Raise e) /\
  (forbidden_syntax d = true ->
   exists msg, In msg walk_messages /\
     forall g,
       disallow (walk tree) g = Run (Raise (ValueError msg)) [] g /\
       evaluate H expr g = Run (Raise (ValueError msg)) [] g).
Proof.
  intros Hp Hd Hk. split.
  - apply (evaluate_rejected H expr tree d); [exact Hp | exact Hd |].
    destruct Hk as [Hf|[Hx|Ho]].
    + apply forbidden_rejected. exact Hf.
    + apply excluded_rejected. exact Hx.
    + apply other_literal_rejected. exact Ho.
  - intros Hf.
    destruct (disallow_raises (walk tree)) as (msg & Hmsg & Hw).
    { exists d. split; [apply walk_descendant; exact Hd | exact Hf]. }
    exists msg. split; [exact Hmsg|]. intros g. split; [apply Hw|].
    apply (evaluate_refused H expr tree); [exact Hp | apply Hw].
Qed.

Lemma excluded_constructs_rejected_witness :
  ast_parse Reference.bare "sqrt(os.path)"
    = Parsed (Expression
                (Call (Name "sqrt") [Attribute (Name "os") "path"] [])) /\
  descendant (Attribute (Name "os") "path")
    (Expression (Call (Name "sqrt") [Attribute (Name "os") "path"] [])) /\
  (forbidden_syntax (Attribute (Name "os") "path") = true \/
   excluded_operator (Attribute (Name "os") "path") = true \/
   other_literal (Attribute (Name "os") "path") = true) /\
  (exists e,
     result (evaluate Reference.bare "sqrt(os.path)" module_globals) = Raise e).
Proof.
  assert (Hp : ast_parse Reference.bare "sqrt(os.path)"
    = Parsed (Expression
                (Call (Name "sqrt") [Attribute (Name "os") "path"] [])))
    by (vm_compute; reflexivity).
  assert (Hd : descendant (Attribute (Name "os") "path")
    (Expression (Call (Name "sqrt") [Attribute (Name "os") "path"] []))).
  { eapply descendant_child; [left; reflexivity|].
    eapply descendant_child; [right; left; reflexivity|].
    apply descendant_self. }
  split; [exact Hp|]. split; [exact Hd|]. split; [left; reflexivity|].
  exact (proj1 (excluded_constructs_rejected Reference.bare _ _ _ Hp Hd
                  (or_introl eq_refl))).
Defined.

(** C1 as the specification states it fails on a formatted string: the
    text [abs(-1) + f'{1}'] holds a string literal, yet the walk lets it
    pass (no node of its tree is a constant with a [str] value), and
    [operator.neg] and [abs] have been called by the time [_safe_eval]
    refuses the [JoinedStr] node with the error of the classes it has no
    branch for. *)
Lemma formatted_string_met_after_a_call :
  ast_parse Reference.bare "abs(-1) + f'{1}'"
    = Parsed (Expression
        (BinOp (Call (Name "abs") [UnaryOp USub (Constant (CInt 1))] []) Add
           (OtherNode "JoinedStr"
              [OtherNode "FormattedValue" [Constant (CInt 1)]]))) /\
  evaluate Reference.bare "abs(-1) + f'{1}'" module_globals
    = Run (Raise (ValueError
                    ("Unsupported expression: "
                     +:+ ast_dump Reference.bare
                           (OtherNode "JoinedStr"
                              [OtherNode "FormattedValue"
                                 [Constant (CInt 1)]]))))
          [Invoked (VBuiltin operator_neg) [VInt 1];
           Invoked (VBuiltin builtins_abs) [VInt (-1)]]
          module_globals /\
  ~ (exists msg,
       In msg walk_messages /\
       result (evaluate Reference.bare "abs(-1) + f'{1}'" module_globals)
         = Raise (ValueError msg)) /\
  invoked (evaluate Reference.bare "abs(-1) + f'{1}'" module_globals) <> [].
Proof.
  assert (E : evaluate Reference.bare "abs(-1) + f'{1}'" module_globals
    = Run (Raise (ValueError
                    ("Unsupported expression: "
                     +:+ ast_dump Reference.bare
                           (OtherNode "JoinedStr"
                              [OtherNode "FormattedValue"
                                 [Constant (CInt 1)]]))))
          [Invoked (VBuiltin operator_neg) [VInt 1];
           Invoked (VBuiltin builtins_abs) [VInt (-1)]]
          module_globals)
    by (vm_compute; reflexivity).
  split; [vm_compute; reflexivity|]. split; [exact E|]. rewrite E. split.
  - intros (msg & Hin & Hr). simpl in Hr. inversion Hr as [Hm].
    rewrite <- Hm in Hin. vm_compute in Hin.
    destruct Hin as [Hin|[Hin|[Hin|[]]]]; discriminate.
  - discriminate.
Qed.



(** C3.  On a binary operation with one of the seven whitelisted
    operators whose operands evaluate to two numbers, [_safe_eval] gives
    what Python's operator of that name gives on those two numbers; the
    text ["2 + 3*4"] evaluates to 14. *)
Theorem binary_operator_is_native
    (H lib : Host) (l r : node) (op : operator) (k : arith)
    (a b : value) (x y : number) :
  In (op, k) native_operators ->
  result (_safe_eval H l module_globals) = Return a ->
  result (_safe_eval H r module_globals) = Return b ->
  number_of a = Some x ->
  number_of b = Some y ->
  result (_safe_eval H (BinOp l op r) module_globals) = number_arith H k x y /\
  evaluate (Reference.host lib) "2 + 3*4" module_globals
    = Run (Return (VInt 14))
          [Invoked (VBuiltin operator_mul) [VInt 3; VInt 4];
           Invoked (VBuiltin operator_add) [VInt 2; VInt 12]]
          module_globals.
Proof.
  intros Hop Hl Hr Hx Hy. split; [|vm_compute; reflexivity].
  destruct (allowed_binop_native H op k Hop) as (func & Hf & Hcall).
  rewrite (safe_eval_BinOp H l op r _ func a b Hf Hl Hr), Hcall.
  unfold py_arith. rewrite Hx, Hy. reflexivity.
Qed.

Lemma binary_operator_is_native_witness :
  In (Mult, mul) native_operators /\
  result (_safe_eval Reference.bare (Constant (CInt 3)) module_globals)
    = Return (VInt 3) /\
  result (_safe_eval Reference.bare (Constant (CFloat math_pi)) module_globals)
    = Return (VFloat math_pi) /\
  number_of (VInt 3) = Some (NInt 3) /\
  number_of (VFloat math_pi) = Some (NFloat math_pi) /\
  result (_safe_eval Reference.bare
            (BinOp (Constant (CInt 3)) Mult (Constant (CFloat math_pi)))
            module_globals)
    = number_arith Reference.bare mul (NInt 3) (NFloat math_pi).
Proof.
  assert (Hop : In (Mult, mul) native_operators)
    by (right; right; left; reflexivity).
  split; [exact Hop|]. repeat (split; [reflexivity|]).
  exact (proj1 (binary_operator_is_native Reference.bare Reference.bare
                  (Constant (CInt 3)) (Constant (CFloat math_pi)) Mult mul
                  (VInt 3) (VFloat math_pi) (NInt 3) (NFloat math_pi)
                  Hop eq_refl eq_refl eq_refl eq_refl)).
Defined.




(** C5, as the code has it.  Evaluating a bare name that the table maps
    to a function returns that function object, uncalled; a name missing
    from the table is the only bare name that fails. *)
Theorem bare_function_name_returned
    (H : Host) (expr name : string) (f : builtin) (g : globals) :
  ast_parse H expr = Parsed (Expression (Name name)) ->
  _ALLOWED_NAMES g !! name = Some (VBuiltin f) ->
  evaluate H expr g = Run (Return (VBuiltin f)) [] g /\
  (forall other expr',
     ast_parse H expr' = Parsed (Expression (Name other)) ->
     _ALLOWED_NAMES g !! other = None ->
     evaluate H expr' g
       = Run (Raise (ValueError ("Name '" +:+ other +:+ "' is not allowed")))
             [] g).
Proof.
  intros Hp Hf. split.
  - rewrite (evaluate_parsed H expr _ g Hp) by reflexivity.
    simpl. rewrite bind_read, Hf. reflexivity.
  - intros other expr' Hp' Hn.
    rewrite (evaluate_parsed H expr' _ g Hp') by reflexivity.
    simpl. rewrite bind_read, Hn. reflexivity.
Qed.

Lemma bare_function_name_returned_witness :
  ast_parse Reference.bare "sqrt" = Parsed (Expression (Name "sqrt")) /\
  _ALLOWED_NAMES module_globals !! "sqrt"
    = Some (VBuiltin (math_function "sqrt")) /\
  evaluate Reference.bare "sqrt" module_globals
    = Run (Return (VBuiltin (math_function "sqrt"))) [] module_globals.
Proof.
  assert (Hp : ast_parse Reference.bare "sqrt"
               = Parsed (Expression (Name "sqrt")))
    by (vm_compute; reflexivity).
  assert (Hf : _ALLOWED_NAMES module_globals !! "sqrt"
               = Some (VBuiltin (math_function "sqrt")))
    by (vm_compute; reflexivity).
  split; [exact Hp|]. split; [exact Hf|].
  exact (proj1 (bare_function_name_returned Reference.bare _ _ _ _ Hp Hf)).
Defined.

(** C5 as the specification states it fails: the text ["sin"] does not
    raise, it evaluates to the function object [math.sin]. *)
Lemma bare_function_name_not_an_error :
  result (evaluate Reference.bare "sin" module_globals)
    = Return (VBuiltin (math_function "sin")) /\
  ~ (exists e, result (evaluate Reference.bare "sin" module_globals) = Raise e).
Proof.
  assert (E : result (evaluate Reference.bare "sin" module_globals)
              = Return (VBuiltin (math_function "sin")))
    by (vm_compute; reflexivity).
  split; [exact E|]. intros [e He]. rewrite E in He. discriminate.
Qed.

(** C6, as the code has it.  A call that the parser accepts with keyword
    arguments, wherever it stands in the text, never gives a value:
    [evaluate] raises.  The keywords are looked at after the callee and
    after the positional arguments, so the call itself ends with the
    first of: "Only direct function calls are allowed" when the callee
    is no name; "Function '...' is not allowed" when the name is not in
    the table or names no function; the exception of the first
    positional argument that raises; and else the evaluator's own
    "Keyword arguments are not supported".  A text that is such a call
    and that the walk lets pass ends as the call does.  A keyword form
    that the parser refuses ends with the generic "Syntax error: ...". *)
Theorem keyword_arguments_rejected
    (H : Host) (expr : string) (tree func : node) (args keywords : list node)
    (g : globals) :
  ast_parse H expr = Parsed tree ->
  descendant (Call func args keywords) tree ->
  keywords <> [] ->
  (exists e, result (evaluate H expr g) = Raise e) /\
  ((forall name, func <> Name name) ->
   result (_safe_eval H (Call func args keywords) g)
     = Raise (ValueError "Only direct function calls are allowed")) /\
  (forall name,
     func = Name name ->
     (_ALLOWED_NAMES g !! name = None \/
      exists v, _ALLOWED_NAMES g !! name = Some v /\ callable v = false) ->
     result (_safe_eval H (Call func args keywords) g)
       = Raise (ValueError ("Function '" +:+ name +:+ "' is not allowed"))) /\
  (forall name v e,
     func = Name name ->
     _ALLOWED_NAMES g !! name = Some v -> callable v = true ->
     result (mapM (_safe_eval H) args g) = Raise e ->
     result (_safe_eval H (Call func args keywords) g) = Raise e) /\
  (forall name v vs,
     func = Name name ->
     _ALLOWED_NAMES g !! name = Some v -> callable v = true ->
     result (mapM (_safe_eval H) args g) = Return vs ->
     result (_safe_eval H (Call func args keywords) g)
       = Raise (ValueError "Keyword arguments are not supported")) /\
  (tree = Expression (Call func args keywords) ->
   clean tree ->
   evaluate H expr g = _safe_eval H (Call func args keywords) g) /\
  (forall expr' detail,
     ast_parse H expr' = SyntaxError detail ->
     evaluate H expr' g
       = Run (Raise (ValueError ("Syntax error: " +:+ detail))) [] g).
Proof.
  intros Hp Hd Hk.
  split; [|split; [|split; [|split; [|split; [|split]]]]].
  - apply (evaluate_rejected H expr tree (Call func args keywords));
      [exact Hp | exact Hd | apply keyword_call_rejected; exact Hk].
  - intros Hn. destruct func; try reflexivity. destruct (Hn id eq_refl).
  - intros name -> [Hl|(v & Hl & Hc)]; simpl; rewrite ?bind_read, Hl;
      [reflexivity | rewrite Hc; reflexivity].
  - intros name v e -> Hl Hc He. simpl. rewrite ?bind_read, Hl, Hc. simpl.
    rewrite (bind_raise _ _ _ _ He). reflexivity.
  - intros name v vs -> Hl Hc Hvs. simpl. rewrite ?bind_read, Hl, Hc. simpl.
    rewrite (bind_return _ _ _ _ Hvs). simpl.
    destruct keywords; [congruence | reflexivity].
  - intros -> Hc.
    rewrite (evaluate_parsed H expr _ g Hp (clean_passes _ g Hc)).
    reflexivity.
  - intros expr' detail Hs. unfold evaluate. rewrite Hs. reflexivity.
Qed.

Lemma keyword_arguments_rejected_witness :
  ast_parse Reference.bare "round(1.5, ndigits=0)"
    = Parsed (Expression
        (Call (Name "round")
           [Constant (CFloat (S754_finite false 6755399441055744 (-52)))]
           [keyword (Some "ndigits") (Constant (CInt 0))])) /\
  [keyword (Some "ndigits") (Constant (CInt 0))] <> [] /\
  result (_safe_eval Reference.bare
            (Call (Name "round")
               [Constant (CFloat (S754_finite false 6755399441055744 (-52)))]
               [keyword (Some "ndigits") (Constant (CInt 0))])
            module_globals)
    = Raise (ValueError "Keyword arguments are not supported").
Proof.
  assert (Hp : ast_parse Reference.bare "round(1.5, ndigits=0)"
    = Parsed (Expression
        (Call (Name "round")
           [Constant (CFloat (S754_finite false 6755399441055744 (-52)))]
           [keyword (Some "ndigits") (Constant (CInt 0))])))
    by (vm_compute; reflexivity).
  assert (Hk : [keyword (Some "ndigits") (Constant (CInt 0))] <> [])
    by discriminate.
  split; [exact Hp|]. split; [exact Hk|].
  assert (Hd : descendant
    (Call (Name "round")
       [Constant (CFloat (S754_finite false 6755399441055744 (-52)))]
       [keyword (Some "ndigits") (Constant (CInt 0))])
    (Expression
       (Call (Name "round")
          [Constant (CFloat (S754_finite false 6755399441055744 (-52)))]
          [keyword (Some "ndigits") (Constant (CInt 0))]))).
  { eapply descendant_child; [left; reflexivity | apply descendant_self]. }
  destruct (keyword_arguments_rejected Reference.bare _ _ _ _ _ module_globals
              Hp Hd Hk) as (_ & _ & _ & _ & Hcall & _).
  apply (Hcall "round" (VBuiltin builtins_round)
           [VFloat (S754_finite false 6755399441055744 (-52))] eq_refl).
  - vm_compute. reflexivity.
  - reflexivity.
  - vm_compute. reflexivity.
Defined.

(** C6 as the specification states it fails: a call written with a
    keyword argument before a positional one, or with a keyword named
    [True], is refused by the parser, and [evaluate] answers with the
    generic syntax error.  Where the parser accepts the call, the error
    need not be about the keyword either: an unknown callee and a
    failing positional argument are reported first. *)
Lemma keyword_form_refused_as_syntax_error :
  result (evaluate Reference.bare "round(ndigits=0, 1.5)" module_globals)
    = Raise (ValueError
               ("Syntax error: positional argument follows keyword argument "
                +:+ "(<unknown>, line 1)")) /\
  result (evaluate Reference.bare "round(1, True=2)" module_globals)
    = Raise (ValueError
               "Syntax error: cannot assign to True (<unknown>, line 1)") /\
  result (evaluate Reference.bare "foo(x=1)" module_globals)
    = Raise (ValueError "Function 'foo' is not allowed") /\
  result (evaluate Reference.bare "round(1/0, ndigits=1)" module_globals)
    = Raise ZeroDivisionError.
Proof. repeat split; vm_compute; reflexivity. Qed.

(** C7.  The parser reads ["-2**2"] as the negation of [2**2], which
    evaluates to -4, and ["2**3**2"] as [2**(3**2)], which evaluates to
    512. *)
Theorem power_precedence (lib : Host) :
  ast_parse (Reference.host lib) "-2**2"
    = Parsed (Expression
        (UnaryOp USub (BinOp (Constant (CInt 2)) Pow (Constant (CInt 2))))) /\
  evaluate (Reference.host lib) "-2**2" module_globals
    = Run (Return (VInt (-4)))
          [Invoked (VBuiltin operator_pow) [VInt 2; VInt 2];
           Invoked (VBuiltin operator_neg) [VInt 4]]
          module_globals /\
  ast_parse (Reference.host lib) "2**3**2"
    = Parsed (Expression
        (BinOp (Constant (CInt 2)) Pow
           (BinOp (Constant (CInt 3)) Pow (Constant (CInt 2))))) /\
  evaluate (Reference.host lib) "2**3**2" module_globals
    = Run (Return (VInt 512))
          [Invoked (VBuiltin operator_pow) [VInt 3; VInt 2];
           Invoked (VBuiltin operator_pow) [VInt 2; VInt 9]]
          module_globals.
Proof. repeat split; vm_compute; reflexivity. Qed.

(** C8.  The module globals are state that a computation can rebind, as
    the module body does when it builds the three tables.  [evaluate]
    never does: it leaves them as it found them, whatever they were, so
    that its result is the same when the same text is evaluated again,
    and the same after any other texts have been evaluated in between.
    (The functions of the tables are those of [math], [operator] and
    the builtins, which have no access to the module: they are
    functions of their arguments.) *)
Theorem evaluate_stateless
    (H : Host) (others : list string) (expr : string) (g : globals) :
  after (evaluate H expr g) = g /\
  evaluate H expr (after (evaluate H expr g)) = evaluate H expr g /\
  evaluate H expr
    (fold_left (fun g' text => after (evaluate H text g')) others g)
    = evaluate H expr g /\
  fold_left (fun g' text => after (evaluate H text g')) others
    (after (module_body g))
    = module_globals.
Proof.
  assert (Hfold : forall g0,
    fold_left (fun g' text => after (evaluate H text g')) others g0 = g0).
  { induction others as [|text others IH]; intros g0; simpl; [reflexivity|].
    rewrite preserving_evaluate. apply IH. }
  split; [apply preserving_evaluate|]. split.
  - rewrite preserving_evaluate. reflexivity.
  - split; [rewrite Hfold; reflexivity|].
    rewrite Hfold. apply module_body_builds.
Qed.

(** C9.  A boolean literal is a constant the evaluator returns as it is,
    and arithmetic takes it for 0 or 1: the text ["True"] evaluates to
    [True] and ["True + True"] to 2. *)
Theorem boolean_literals_are_numbers
    (H lib : Host) (b : bool) (g : globals) :
  _safe_eval H (Constant (CBool b)) g = Run (Return (VBool b)) [] g /\
  number_of (VBool b) = Some (NInt (if b then 1 else 0)) /\
  ast_parse (Reference.host lib) "True"
    = Parsed (Expression (Constant (CBool true))) /\
  evaluate (Reference.host lib) "True" module_globals
    = Run (Return (VBool true)) [] module_globals /\
  evaluate (Reference.host lib) "True + True" module_globals
    = Run (Return (VInt 2))
          [Invoked (VBuiltin operator_add) [VBool true; VBool true]]
          module_globals.
Proof.
  split; [reflexivity|]. split; [reflexivity|].
  repeat split; vm_compute; reflexivity.
Qed.

(** C10.  A text that parses to a top-level tuple evaluates to the tuple
    of the values of its elements, in order; the text ["1, 2+3"] is such
    a text and evaluates to [(1, 5)]. *)
Theorem top_level_tuple
    (H lib : Host) (expr : string) (elts : list node) (vs : list value)
    (g : globals) :
  ast_parse H expr = Parsed (Expression (Tuple elts)) ->
  Forall2 (fun e v => result (_safe_eval H e g) = Return v) elts vs ->
  result (evaluate H expr g) = Return (VTuple vs) /\
  ast_parse (Reference.host lib) "1, 2+3"
    = Parsed (Expression
        (Tuple [Constant (CInt 1);
                BinOp (Constant (CInt 2)) Add (Constant (CInt 3))])) /\
  evaluate (Reference.host lib) "1, 2+3" module_globals
    = Run (Return (VTuple [VInt 1; VInt 5]))
          [Invoked (VBuiltin operator_add) [VInt 2; VInt 3]]
          module_globals.
Proof.
  intros Hp Hvs. split; [|split; vm_compute; reflexivity].
  assert (Ht : result (_safe_eval H (Expression (Tuple elts)) g)
               = Return (VTuple vs)).
  { simpl. erewrite bind_return; [reflexivity|].
    apply mapM_Forall2; [|exact Hvs].
    intros x _. apply preserving_safe_eval. }
  rewrite (evaluate_parsed H expr _ g Hp (returns_passes_walk H g _ _ Ht)).
  exact Ht.
Qed.

Lemma top_level_tuple_witness :
  ast_parse Reference.bare "4, 5"
    = Parsed (Expression (Tuple [Constant (CInt 4); Constant (CInt 5)])) /\
  Forall2 (fun e v => result (_safe_eval Reference.bare e module_globals)
                      = Return v)
    [Constant (CInt 4); Constant (CInt 5)] [VInt 4; VInt 5] /\
  result (evaluate Reference.bare "4, 5" module_globals)
    = Return (VTuple [VInt 4; VInt 5]).
Proof.
  assert (Hp : ast_parse Reference.bare "4, 5"
    = Parsed (Expression (Tuple [Constant (CInt 4); Constant (CInt 5)])))
    by (vm_compute; reflexivity).
  assert (Hvs : Forall2
    (fun e v => result (_safe_eval Reference.bare e module_globals) = Return v)
    [Constant (CInt 4); Constant (CInt 5)] [VInt 4; VInt 5])
    by (repeat constructor).
  split; [exact Hp|]. split; [exact Hvs|].
  exact (proj1 (top_level_tuple Reference.bare Reference.bare _ _ _ _ Hp Hvs)).
Defined.

(** ** Further properties of the evaluator *)







Lemma not_rejected_whitelisted g n :
  rejected g n = false -> whitelisted g n = true.
Proof.
  destruct n; simpl; try discriminate; try reflexivity.
  - destruct value0; try discriminate; reflexivity.
  - destruct (_ALLOWED_BINOPS g !! op); [reflexivity | discriminate].
  - destruct (_ALLOWED_UNARYOPS g !! op); [reflexivity | discriminate].
  - destruct n; try discriminate.
    destruct (_ALLOWED_NAMES g !! id) as [v|]; [|discriminate].
    destruct (callable v); simpl; [|discriminate].
    destruct keywords; [reflexivity | discriminate].
  - destruct (_ALLOWED_NAMES g !! id); [reflexivity | discriminate].
Qed.

Lemma evaluate_returns (H : Host) expr g v :
  result (evaluate H expr g) = Return v ->
  exists tree,
    ast_parse H expr = Parsed tree /\
    result (_safe_eval H tree g) = Return v.
Proof.
  unfold evaluate. destruct (ast_parse H expr) as [tree|detail|e];
    [|discriminate..].
  intros Hv. exists tree. split; [reflexivity|].
  destruct (result (disallow (walk tree) g)) as [[]|e] eqn:Ew.
  - rewrite (bind_return _ _ _ _ Ew) in Hv. simpl in Hv.
    rewrite preserving_disallow in Hv. exact Hv.
  - rewrite (bind_raise _ _ _ _ Ew) in Hv. discriminate.
Qed.

Lemma returned_whitelisted (H : Host) expr g v :
  result (evaluate H expr g) = Return v ->
  exists tree,
    ast_parse H expr = Parsed tree /\
    forall d, descendant d tree -> whitelisted g d = true.
Proof.
  intros Hv. destruct (evaluate_returns H expr g v Hv) as (tree & Hp & Ht).
  exists tree. split; [exact Hp|]. intros d Hd.
  apply not_rejected_whitelisted.
  destruct (rejected g d) eqn:Er; [|reflexivity].
  destruct (descendant_rejected_raises H g tree d Hd Er) as [e He].
  congruence.
Qed.

Lemma whitelisted_call g f args kws :
  whitelisted g (Call f args kws) = true ->
  kws = [] /\
  exists name b, f = Name name /\ _ALLOWED_NAMES g !! name = Some (VBuiltin b).
Proof.
  destruct f; simpl; try discriminate;
    try (destruct kws; discriminate).
  destruct kws; [|discriminate].
  destruct (_ALLOWED_NAMES g !! id) as [v|] eqn:El; [|discriminate].
  destruct v; simpl; try discriminate.
  intros _. split; [reflexivity|]. eauto.
Qed.

Lemma whitelisted_binop l op r :
  whitelisted module_globals (BinOp l op r) = true ->
  In op [Add; Sub; Mult; Div; FloorDiv; Mod; Pow].
Proof.
  destruct op; intros Hw; try (vm_compute in Hw; discriminate);
    simpl; auto 10.
Qed.

Lemma whitelisted_unaryop op e :
  whitelisted module_globals (UnaryOp op e) = true -> In op [UAdd; USub].
Proof.
  destruct op; intros Hw; try (vm_compute in Hw; discriminate);
    simpl; auto.
Qed.

(** X2.  When [evaluate] returns a value, every node of the text's tree
    is on the whitelist: the only binary operators are the seven of the
    table, the only unary ones [+] and [-], every call is a call without
    keywords of a name that the table maps to a function, every name is
    in the table, and every constant is a number. *)
Theorem returned_value_from_whitelisted_tree
    (H : Host) (expr : string) (v : value) :
  result (evaluate H expr module_globals) = Return v ->
  exists tree,
    ast_parse H expr = Parsed tree /\
    (forall d, descendant d tree -> whitelisted module_globals d = true) /\
    (forall l op r, descendant (BinOp l op r) tree ->
       In op [Add; Sub; Mult; Div; FloorDiv; Mod; Pow]) /\
    (forall op e, descendant (UnaryOp op e) tree -> In op [UAdd; USub]) /\
    (forall f args kws, descendant (Call f args kws) tree ->
       kws = [] /\
       exists name b,
         f = Name name /\
         _ALLOWED_NAMES module_globals !! name = Some (VBuiltin b)) /\
    (forall c, descendant (Constant c) tree ->
       match c with CInt _ | CBool _ | CFloat _ => True | _ => False end).
Proof.
  intros Hv.
  destruct (returned_whitelisted H expr module_globals v Hv)
    as (tree & Hp & Hw).
  exists tree. split; [exact Hp|]. split; [exact Hw|].
  split; [|split; [|split]].
  - intros l op r Hd. apply (whitelisted_binop l op r). apply Hw. exact Hd.
  - intros op e Hd. apply (whitelisted_unaryop op e). apply Hw. exact Hd.
  - intros f args kws Hd. apply (whitelisted_call module_globals f args kws).
    apply Hw. exact Hd.
  - intros c Hd. specialize (Hw _ Hd).
    destruct c; try discriminate Hw; exact I.
Qed.

Lemma returned_value_from_whitelisted_tree_witness :
  result (evaluate Reference.bare "2 + 3*4" module_globals)
    = Return (VInt 14) /\
  exists tree,
    ast_parse Reference.bare "2 + 3*4" = Parsed tree /\
    (forall l op r, descendant (BinOp l op r) tree ->
       In op [Add; Sub; Mult; Div; FloorDiv; Mod; Pow]).
Proof.
  assert (Hv : result (evaluate Reference.bare "2 + 3*4" module_globals)
               = Return (VInt 14)) by (vm_compute; reflexivity).
  split; [exact Hv|].
  destruct (returned_value_from_whitelisted_tree Reference.bare _ _ Hv)
    as (tree & Hp & _ & Hb & _).
  exists tree. split; [exact Hp | exact Hb].
Defined.

(** X3.  The walk before the evaluation refuses a tree exactly when one
    of its nodes is an attribute access, a subscription or a string
    constant; on every other tree [evaluate] is [_safe_eval] of the tree,
    outcome and invocations alike. *)
Theorem walk_refuses_exactly
    (H : Host) (expr : string) (tree : node) (g : globals) :
  ast_parse H expr = Parsed tree ->
  (disallow (walk tree) g = Run (Return tt) [] g <-> clean tree) /\
  (clean tree -> evaluate H expr g = _safe_eval H tree g).
Proof.
  intros Hp. split; [split|].
  - intros Hw d Hd. destruct (forbidden_syntax d) eqn:Ef; [|reflexivity].
    destruct (disallow_raises (walk tree)) as (msg & _ & Hr).
    { exists d. split; [apply walk_descendant; exact Hd | exact Ef]. }
    rewrite Hr in Hw. discriminate.
  - apply clean_passes.
  - intros Hc. apply (evaluate_parsed H expr tree g Hp).
    apply clean_passes. exact Hc.
Qed.

Lemma walk_refuses_exactly_witness :
  ast_parse Reference.bare "None"
    = Parsed (Expression (Constant CNone)) /\
  clean (Expression (Constant CNone)) /\
  evaluate Reference.bare "None" module_globals
    = _safe_eval Reference.bare (Expression (Constant CNone)) module_globals.
Proof.
  assert (Hp : ast_parse Reference.bare "None"
               = Parsed (Expression (Constant CNone)))
    by (vm_compute; reflexivity).
  assert (Hc : clean (Expression (Constant CNone))).
  { apply clean_node; [reflexivity|]. intros c [<-|[]].
    apply clean_node; [reflexivity|]. intros c []. }
  split; [exact Hp|]. split; [exact Hc|].
  exact (proj2 (walk_refuses_exactly Reference.bare _ _ module_globals Hp) Hc).
Defined.

Lemma disallow_first pre d post g :
  Forall (fun n => forbidden_syntax n = false) pre ->
  forbidden_syntax d = true ->
  disallow (pre ++ d :: post) g
    = Run (Raise (ValueError (walk_message d))) [] g.
Proof.
  intros Hpre Hd. induction Hpre as [|n pre Hn _ IH]; simpl.
  - unfold walk_message. unfold forbidden_syntax in Hd.
    destruct (is_Attribute d); [reflexivity|].
    destruct (is_Subscript d); [reflexivity|].
    destruct (is_Str d); [reflexivity | discriminate].
  - unfold forbidden_syntax in Hn.
    apply orb_false_elim in Hn. destruct Hn as [Hn Ht].
    apply orb_false_elim in Hn. destruct Hn as [Ha Hs].
    rewrite Ha, Hs, Ht. exact IH.
Qed.

(** X4.  When a tree holds several refused constructs, the message is
    that of the first one in the order of [ast.walk], which is breadth
    first: the leftmost of the refused nodes of the smallest depth.  So
    a refused construct is reported rather than any construct nested in
    it, or anywhere deeper in the tree, even one that comes before it in
    the text; and nothing has been called. *)
Theorem first_refused_node_decides
    (H : Host) (expr : string) (tree d : node) (k : nat)
    (pre post : list node) (g : globals) :
  ast_parse H expr = Parsed tree ->
  (forall j, (j < k)%nat ->
     Forall (fun n => forbidden_syntax n = false) (level j [tree])) ->
  level k [tree] = pre ++ d :: post ->
  Forall (fun n => forbidden_syntax n = false) pre ->
  forbidden_syntax d = true ->
  evaluate H expr g = Run (Raise (ValueError (walk_message d))) [] g /\
  (exists before rest,
     walk tree = before ++ d :: rest /\
     Forall (fun n => forbidden_syntax n = false) before) /\
  (forall c, In c (iter_child_nodes d) -> In c (level (S k) [tree])).
Proof.
  intros Hp Hshallow Hlevel Hpre Hd.
  destruct (walk_queue_level k (node_size tree) [tree])
    as (before & rest & Hw & Hb); [simpl; lia|].
  assert (Hwalk : walk tree = (before ++ pre) ++ d :: (post ++ rest)).
  { unfold walk. rewrite Hw, Hlevel, <- !app_assoc. reflexivity. }
  assert (Hclean : Forall (fun n => forbidden_syntax n = false)
                     (before ++ pre)).
  { apply List.Forall_app. split; [|exact Hpre].
    apply List.Forall_forall. intros x Hx.
    destruct (Hb x Hx) as (j & Hj & Hin).
    pose proof (Hshallow j Hj) as HF. rewrite List.Forall_forall in HF.
    apply HF. exact Hin. }
  split; [|split].
  - apply (evaluate_refused H expr tree g _ Hp).
    rewrite Hwalk. apply disallow_first; assumption.
  - exists (before ++ pre), (post ++ rest). split; assumption.
  - intros c Hc. apply (level_children k [tree] d c); [|exact Hc].
    rewrite Hlevel. apply in_or_app. right. left. reflexivity.
Qed.

Lemma first_refused_node_decides_witness :
  ast_parse Reference.bare "(a.b + 1) * c['k']"
    = Parsed (Expression
        (BinOp (BinOp (Attribute (Name "a") "b") Add (Constant (CInt 1)))
           Mult (Subscript (Name "c") (Constant (CStr "k"))))) /\
  level 2 [Expression
        (BinOp (BinOp (Attribute (Name "a") "b") Add (Constant (CInt 1)))
           Mult (Subscript (Name "c") (Constant (CStr "k"))))]
    = [BinOp (Attribute (Name "a") "b") Add (Constant (CInt 1))]
      ++ Subscript (Name "c") (Constant (CStr "k")) :: [] /\
  evaluate Reference.bare "(a.b + 1) * c['k']" module_globals
    = Run (Raise (ValueError "Subscription is not allowed")) []
          module_globals.
Proof.
  assert (Hp : ast_parse Reference.bare "(a.b + 1) * c['k']"
    = Parsed (Expression
        (BinOp (BinOp (Attribute (Name "a") "b") Add (Constant (CInt 1)))
           Mult (Subscript (Name "c") (Constant (CStr "k"))))))
    by (vm_compute; reflexivity).
  split; [exact Hp|]. split; [reflexivity|].
  refine (proj1 (first_refused_node_decides Reference.bare _ _
           (Subscript (Name "c") (Constant (CStr "k"))) 2
           [BinOp (Attribute (Name "a") "b") Add (Constant (CInt 1))] []
           module_globals Hp _ eq_refl _ eq_refl)).
  - intros [|[|j]] Hj; [| |lia]; repeat constructor.
  - repeat constructor.
Defined.






(** X7.  Floor division and remainder of ints fit together as in Python:
    [(a // b) * b + a % b] evaluates to [a], and the remainder lies
    between zero and the divisor, with the divisor's sign. *)
Theorem floor_division_and_remainder
    (H : Host) (l r : node) (a b : Z) :
  result (_safe_eval H l module_globals) = Return (VInt a) ->
  result (_safe_eval H r module_globals) = Return (VInt b) ->
  b <> 0 ->
  result (_safe_eval H
            (BinOp (BinOp (BinOp l FloorDiv r) Mult r) Add (BinOp l Mod r))
            module_globals) = Return (VInt a) /\
  exists m,
    result (_safe_eval H (BinOp l Mod r) module_globals) = Return (VInt m) /\
    (0 < b -> 0 <= m < b) /\ (b < 0 -> b < m <= 0).
Proof.
  intros Hl Hr Hb.
  assert (Hq : result (_safe_eval H (BinOp l FloorDiv r) module_globals)
               = Return (VInt (a / b))).
  { rewrite (safe_eval_BinOp H l FloorDiv r module_globals operator_floordiv
               (VInt a) (VInt b)); [| vm_compute; reflexivity | exact Hl | exact Hr].
    cbv [call py_arith number_of number_arith int_arith].
    apply Z.eqb_neq in Hb. rewrite Hb. reflexivity. }
  assert (Hm : result (_safe_eval H (BinOp l Mod r) module_globals)
               = Return (VInt (a mod b))).
  { rewrite (safe_eval_BinOp H l Mod r module_globals operator_mod
               (VInt a) (VInt b)); [| vm_compute; reflexivity | exact Hl | exact Hr].
    cbv [call py_arith number_of number_arith int_arith].
    apply Z.eqb_neq in Hb. rewrite Hb. reflexivity. }
  assert (Hp : result (_safe_eval H (BinOp (BinOp l FloorDiv r) Mult r)
                         module_globals)
               = Return (VInt (a / b * b))).
  { rewrite (safe_eval_BinOp H _ Mult r module_globals operator_mul
               (VInt (a / b)) (VInt b)); [| vm_compute; reflexivity | exact Hq | exact Hr].
    reflexivity. }
  split.
  - rewrite (safe_eval_BinOp H _ Add _ module_globals operator_add
               (VInt (a / b * b)) (VInt (a mod b)));
      [| vm_compute; reflexivity | exact Hp | exact Hm].
    cbv [call py_arith number_of number_arith int_arith].
    f_equal. f_equal. rewrite (Z.mul_comm (a / b) b).
    symmetry. apply Z.div_mod. exact Hb.
  - exists (a mod b). split; [exact Hm|]. split; intros Hs.
    + apply Z.mod_pos_bound. exact Hs.
    + apply Z.mod_neg_bound. exact Hs.
Qed.

Lemma floor_division_and_remainder_witness :
  result (_safe_eval Reference.bare (Constant (CInt (-7))) module_globals)
    = Return (VInt (-7)) /\
  3 <> 0 /\
  result (_safe_eval Reference.bare
            (BinOp (BinOp (BinOp (Constant (CInt (-7))) FloorDiv
                                 (Constant (CInt 3)))
                          Mult (Constant (CInt 3)))
                   Add
                   (BinOp (Constant (CInt (-7))) Mod (Constant (CInt 3))))
            module_globals) = Return (VInt (-7)).
Proof.
  split; [reflexivity|]. split; [discriminate|].
  exact (proj1 (floor_division_and_remainder Reference.bare
                  (Constant (CInt (-7))) (Constant (CInt 3)) (-7) 3
                  eq_refl eq_refl ltac:(discriminate))).
Defined.

Lemma digits2_pos_lower p : 2 ^ (Z.pos (digits2_pos p) - 1) <= Z.pos p.
Proof.
  induction p as [p IH|p IH|]; simpl digits2_pos.
  - rewrite Pos2Z.inj_succ.
    replace (Z.succ (Z.pos (digits2_pos p)) - 1)
      with (Z.succ (Z.pos (digits2_pos p) - 1)) by lia.
    rewrite Z.pow_succ_r by lia. lia.
  - rewrite Pos2Z.inj_succ.
    replace (Z.succ (Z.pos (digits2_pos p)) - 1)
      with (Z.succ (Z.pos (digits2_pos p) - 1)) by lia.
    rewrite Z.pow_succ_r by lia. lia.
  - simpl. lia.
Qed.

(** Below [2**53] the conversion to a float loses nothing. *)
Lemma binary_round_small s p :
  Z.pos p < 2 ^ 53 ->
  exists m e,
    binary_round prec emax s p 0 = S754_finite s m e /\
    (if 0 <=? e then Z.pos m * 2 ^ e else Z.pos m / 2 ^ (- e)) = Z.pos p.
Proof.
  intros Hp.
  assert (Hd : Z.pos (digits2_pos p) <= 53).
  { pose proof (digits2_pos_lower p) as Hl.
    destruct (Z_le_gt_dec (Z.pos (digits2_pos p)) 53) as [Hle|Hgt];
      [exact Hle|].
    assert (2 ^ 53 <= 2 ^ (Z.pos (digits2_pos p) - 1))
      by (apply Z.pow_le_mono_r; lia).
    lia. }
  unfold binary_round, shl_align.
  remember (fexp prec emax (Z.pos (digits2_pos p) + 0)) as e0 eqn:Ee0.
  assert (He0 : e0 = Z.pos (digits2_pos p) - 53).
  { rewrite Ee0. unfold fexp, emin, prec, emax. lia. }
  destruct (e0 - 0) as [|q|q] eqn:Ed.
  - exists p, 0. split; [|simpl; lia].
    apply binary_round_aux_aligned; [|unfold emax, prec; lia].
    rewrite <- Ee0. lia.
  - lia.
  - assert (Hq : e0 = Z.neg q) by lia.
    exists (Pos.iter xO p q), e0. split.
    + apply binary_round_aux_aligned; [|unfold emax, prec; lia].
      rewrite digits2_pos_iter_xO, Hq.
      replace (Z.pos (digits2_pos p) + Z.pos q + Z.neg q)
        with (Z.pos (digits2_pos p) + 0) by lia.
      rewrite <- Ee0. exact Hq.
    + rewrite Hq. simpl Z.opp. simpl (0 <=? Z.neg q).
      rewrite Zpos_iter_xO. apply Z.div_mul.
      apply Z.pow_nonzero; lia.
Qed.

(** [int(float(n)) == n] for every int [n] of magnitude below [2**53]. *)
Lemma float_of_int_exact n f :
  Z.abs n < 2 ^ 53 ->
  float_of_int n = Some f ->
  int_of_float f = Return n.
Proof.
  intros Hn. unfold float_of_int, binary_normalize.
  destruct n as [|p|p].
  - intros E. inversion E. reflexivity.
  - destruct (binary_round_small false p Hn) as (m & e & -> & Hv).
    intros E. inversion E. simpl. rewrite Hv. reflexivity.
  - destruct (binary_round_small true p Hn) as (m & e & -> & Hv).
    intros E. inversion E. simpl. rewrite Hv. reflexivity.
Qed.

(** X8.  [factorial] of a float that is the exact image of an int [n]
    below [2**53] (such as [5.0]) is the factorial of [n], as for the int
    itself: the float passes the check and [int()] recovers [n]. *)
Theorem factorial_of_integral_float
    (H : Host) (arg : node) (n : Z) (f : float) :
  0 <= n < 2 ^ 53 ->
  n <= LONG_MAX H ->
  float_of_int n = Some f ->
  result (_safe_eval H arg module_globals) = Return (VFloat f) ->
  result (_safe_eval H (Call (Name "factorial") [arg] []) module_globals)
    = Return (VInt (Z.of_nat (fact (Z.to_nat n)))) /\
  result (_safe_eval H (Call (Name "factorial") [Constant (CInt n)] [])
            module_globals)
    = Return (VInt (Z.of_nat (fact (Z.to_nat n)))).
Proof.
  intros Hn Hmax Hf Harg.
  assert (Hlook : _ALLOWED_NAMES module_globals !! "factorial"
                  = Some (VBuiltin (math_function "factorial")))
    by (vm_compute; reflexivity).
  assert (Hfact : math_factorial H n
                  = Return (VInt (Z.of_nat (fact (Z.to_nat n))))).
  { unfold math_factorial.
    destruct (n <? 0) eqn:E1; [apply Z.ltb_lt in E1; lia|].
    destruct (LONG_MAX H <? n) eqn:E2; [apply Z.ltb_lt in E2; lia|].
    reflexivity. }
  assert (Hneg : (n <? 0) = false) by (apply Z.ltb_ge; lia).
  split.
  - rewrite (safe_eval_factorial H [arg] module_globals _ [VFloat f] Hlook eq_refl).
    + rewrite (factorial_branch_policy H [VFloat f] [NFloat f]).
      * unfold factorial_policy, integer_value.
        rewrite (float_of_int_is_integer n f Hf).
        rewrite (float_of_int_exact n f ltac:(lia) Hf), Hneg. exact Hfact.
      * constructor; [|constructor]. split; [reflexivity|].
        exists f. reflexivity.
    + apply mapM_Forall2.
      * intros x _. apply preserving_safe_eval.
      * constructor; [exact Harg | constructor].
  - rewrite (safe_eval_factorial H [Constant (CInt n)] module_globals _
               [VInt n] Hlook eq_refl); [|reflexivity].
    rewrite (factorial_branch_policy H [VInt n] [NInt n]).
    + unfold factorial_policy, integer_value. rewrite Hneg. exact Hfact.
    + constructor; [|constructor]. split; [reflexivity|].
      exists f. unfold to_float. rewrite Hf. reflexivity.
Qed.

Lemma factorial_of_integral_float_witness :
  0 <= 5 < 2 ^ 53 /\
  5 <= LONG_MAX Reference.bare /\
  float_of_int 5 = Some (S754_finite false 5629499534213120 (-50)) /\
  ast_parse Reference.bare "factorial(5.0)"
    = Parsed (Expression
        (Call (Name "factorial")
           [Constant (CFloat (S754_finite false 5629499534213120 (-50)))]
           [])) /\
  result (_safe_eval Reference.bare
            (Call (Name "factorial")
               [Constant (CFloat (S754_finite false 5629499534213120 (-50)))]
               [])
            module_globals) = Return (VInt 120).
Proof.
  assert (Hn : 0 <= 5 < 2 ^ 53) by (split; [discriminate | reflexivity]).
  assert (Hm : 5 <= LONG_MAX Reference.bare) by discriminate.
  assert (Hf : float_of_int 5
               = Some (S754_finite false 5629499534213120 (-50)))
    by (vm_compute; reflexivity).
  split; [exact Hn|]. split; [exact Hm|]. split; [exact Hf|].
  split; [vm_compute; reflexivity|].
  exact (proj1 (factorial_of_integral_float Reference.bare
                  (Constant (CFloat (S754_finite false 5629499534213120 (-50))))
                  5 _ Hn Hm Hf eq_refl)).
Defined.

(** ** Properties of the shell *)

Lemma bind_cong_l {A B} (m m' : M A) (k : A -> M B) g :
  m g = m' g -> bind m k g = bind m' k g.
Proof. intros E. unfold bind. rewrite E. reflexivity. Qed.

Lemma bind_ext {A B} (m : M A) (k k' : A -> M B) g :
  (forall a g', k a g' = k' a g') -> bind m k g = bind m k' g.
Proof.
  intros E. unfold bind. destruct (result (m g)); [|reflexivity].
  rewrite E. reflexivity.
Qed.

Lemma result_bind_ret {A B} (m : M A) (f : A -> B) g a :
  result (m g) = Return a ->
  result (bind m (fun x => ret (f x)) g) = Return (f a).
Proof. intros E. rewrite (bind_return _ _ _ _ E). reflexivity. Qed.

Lemma result_bind_ret_inv {A B} (m : M A) (f : A -> B) g b :
  result (bind m (fun x => ret (f x)) g) = Return b ->
  exists a, result (m g) = Return a /\ b = f a.
Proof.
  intros E. destruct (result (m g)) as [a|e] eqn:Em.
  - rewrite (bind_return _ _ _ _ Em) in E. simpl in E.
    inversion E. eauto.
  - rewrite (bind_raise _ _ _ _ Em) in E. discriminate.
Qed.

Lemma bind_attempt {A B} (m : M A) (k : outcome A -> M B) g :
  preserving m ->
  result (bind (attempt m) k g) = result (k (result (m g)) g).
Proof.
  intros Hm. unfold bind, attempt. simpl. rewrite Hm. reflexivity.
Qed.

Lemma say_say p q t : say p (say q t) = say (p ++ q) t.
Proof. unfold say. simpl. rewrite app_assoc. reflexivity. Qed.

(** Two stretches of output before the rest of a session are one. *)
Lemma bind_say_say (m : M session) p q g :
  (t <- (t <- m ;; ret (say q t)) ;; ret (say p t)) g
    = (t <- m ;; ret (say (p ++ q) t)) g.
Proof.
  unfold bind, ret. destruct (result (m g)); simpl; [|reflexivity].
  rewrite say_say, !app_nil_r. reflexivity.
Qed.

(** What follows a stretch of lines only depends on what the loop does
    from there on. *)
Lemma repl_loop_congruence (H : Host) (C : Console) l1 l2 :
  (forall h g, repl_loop H C l1 h g = repl_loop H C l2 h g) ->
  forall pre h g,
    repl_loop H C (pre ++ l1) h g = repl_loop H C (pre ++ l2) h g.
Proof.
  intros E pre. induction pre as [|x pre IH]; intros h g; [apply E|].
  cbn [app repl_loop]. apply bind_cong_l.
  destruct (String.eqb (strip x) ""); [apply IH|].
  destruct (word_in (lower (strip x)) ["quit"; "q"; "exit"]); [reflexivity|].
  destruct (word_in (lower (strip x)) ["help"; "?"]);
    [apply bind_cong_l; apply IH|].
  destruct (String.eqb (lower (strip x)) "history").
  - destruct h as [|entry h]; [apply bind_cong_l; apply IH|].
    destruct (show_entries C 1 (entry :: h)) as [shown [e|]];
      [reflexivity | apply bind_cong_l; apply IH].
  - apply bind_ext. intros [v|e] g'.
    + destruct (str_value C v); apply bind_cong_l; apply IH.
    + apply bind_cong_l; apply IH.
Qed.

Lemma not_quit_when_blank line :
  word_in (lower (strip line)) quit_words = true ->
  String.eqb (strip line) "" = false.
Proof.
  intros Hq. destruct (String.eqb (strip line) "") eqn:E; [|reflexivity].
  apply String.eqb_eq in E. rewrite E in Hq. discriminate.
Qed.

(** X9.  A quit word ([quit], [q] or [exit], in any letter case, with
    blanks around it) ends the session: no later line is read, evaluated
    or answered. *)
Theorem nothing_is_read_after_quit
    (H : Host) (C : Console) (pre rest : list string) (q : string)
    (g : globals) :
  word_in (lower (strip q)) quit_words = true ->
  repl H C (pre ++ q :: rest) g = repl H C (pre ++ [q]) g.
Proof.
  intros Hq. unfold repl. apply bind_cong_l.
  apply repl_loop_congruence. intros h g'.
  cbn [repl_loop]. rewrite (not_quit_when_blank q Hq).
  unfold quit_words in Hq. rewrite Hq. reflexivity.
Qed.

Lemma nothing_is_read_after_quit_witness :
  word_in (lower (strip "  Quit ")) quit_words = true /\
  repl Reference.bare Reference.console
       (["1+1"] ++ "  Quit " :: ["2+2"; "history"]) module_globals
    = repl Reference.bare Reference.console
           (["1+1"] ++ ["  Quit "]) module_globals.
Proof.
  assert (Hq : word_in (lower (strip "  Quit ")) quit_words = true)
    by reflexivity.
  split; [exact Hq|].
  exact (nothing_is_read_after_quit Reference.bare Reference.console
           ["1+1"] ["2+2"; "history"] "  Quit " module_globals Hq).
Defined.

Lemma lstrip_chars_blank l :
  Forall (fun c => is_space c = true) l -> lstrip_chars l = [].
Proof.
  induction 1 as [|c l Hc _ IH]; simpl; [reflexivity|].
  rewrite Hc. exact IH.
Qed.

Lemma strip_blank s :
  Forall (fun c => is_space c = true) (list_ascii_of_string s) ->
  strip s = "".
Proof.
  intros Hs. unfold strip, strip_chars.
  rewrite (lstrip_chars_blank _ Hs). reflexivity.
Qed.

Lemma last_app_Some {A} (l1 l2 : list A) x :
  last l2 = Some x -> last (l1 ++ l2) = Some x.
Proof.
  intros Hl. induction l1 as [|y l1 IH]; simpl; [exact Hl|].
  destruct (l1 ++ l2) eqn:E; [discriminate IH | exact IH].
Qed.

Lemma show_entries_escape (C : Console) history : forall i shown e,
  show_entries C i history = (shown, Some e) ->
  exists expr v, In (expr, v) history /\ str_value C v = Raise e.
Proof.
  induction history as [|[expr v] history IH]; intros i shown e; simpl;
    [discriminate|].
  destruct (str_value C v) as [text|e'] eqn:Ev.
  - destruct (show_entries C (S i) history) as [lines e''] eqn:Es.
    intros E. inversion E; subst.
    destruct (IH _ _ _ Es) as (expr' & v' & Hin & Hr).
    exists expr', v'. split; [right; exact Hin | exact Hr].
  - intros E. inversion E; subst.
    exists expr, v. split; [left; reflexivity | exact Ev].
Qed.

(** How a run of the loop can end. *)
Lemma repl_loop_ends (H : Host) (C : Console) lines : forall h g,
  exists t,
    result (repl_loop H C lines h g) = Return t /\
    ((escaped t = None /\
      exists bye, last (output t) = Some (Text bye) /\
                  (bye = "Goodbye" \/ bye = newline +:+ "Goodbye")) \/
     (exists e expr v,
        escaped t = Some e /\ In (expr, v) (entries t) /\
        str_value C v = Raise e)).
Proof.
  assert (Hsay : forall (m : M session) g pre,
    (exists t, result (m g) = Return t /\
       ((escaped t = None /\
         exists bye, last (output t) = Some (Text bye) /\
                     (bye = "Goodbye" \/ bye = newline +:+ "Goodbye")) \/
        (exists e expr v,
           escaped t = Some e /\ In (expr, v) (entries t) /\
           str_value C v = Raise e))) ->
    exists t, result (bind m (fun t' => ret (say pre t')) g) = Return t /\
       ((escaped t = None /\
         exists bye, last (output t) = Some (Text bye) /\
                     (bye = "Goodbye" \/ bye = newline +:+ "Goodbye")) \/
        (exists e expr v,
           escaped t = Some e /\ In (expr, v) (entries t) /\
           str_value C v = Raise e))).
  { intros m g pre (t & Ht & Hend). exists (say pre t).
    split; [apply result_bind_ret; exact Ht|].
    destruct Hend as [[Hesc (bye & Hl & Hb)]|Hend].
    - left. split; [exact Hesc|]. exists bye.
      split; [apply last_app_Some; exact Hl | exact Hb].
    - right. exact Hend. }
  induction lines as [|line rest IH]; intros h g.
  - eexists. split; [reflexivity|]. left. split; [reflexivity|].
    eexists. split; [reflexivity|]. right. reflexivity.
  - cbn [repl_loop]. apply Hsay.
    destruct (String.eqb (strip line) ""); [apply IH|].
    destruct (word_in (lower (strip line)) ["quit"; "q"; "exit"]).
    { eexists. split; [reflexivity|]. left. split; [reflexivity|].
      eexists. split; [reflexivity|]. left. reflexivity. }
    destruct (word_in (lower (strip line)) ["help"; "?"]);
      [apply Hsay; apply IH|].
    destruct (String.eqb (lower (strip line)) "history").
    + destruct h as [|entry h]; [apply Hsay; apply IH|].
      destruct (show_entries C 1 (entry :: h)) as [shown [e|]] eqn:Es;
        [|apply Hsay; apply IH].
      eexists. split; [reflexivity|]. right.
      destruct (show_entries_escape C _ _ _ _ Es) as (expr & v & Hin & Hr).
      exists e, expr, v. auto.
    + unfold bind at 1, attempt. simpl.
      destruct (result (evaluate H (strip line) g)) as [v|e].
      * destruct (str_value C v).
        -- destruct (Hsay (repl_loop H C rest (h ++ [(strip line, v)]))
                       (after (evaluate H (strip line) g)) [Result a]
                       (IH _ _)) as (t & Ht & Hend).
           exists t. split; [exact Ht | exact Hend].
        -- destruct (Hsay (repl_loop H C rest (h ++ [(strip line, v)]))
                       (after (evaluate H (strip line) g)) [Error e]
                       (IH _ _)) as (t & Ht & Hend).
           exists t. split; [exact Ht | exact Hend].
      * destruct (Hsay (repl_loop H C rest h)
                    (after (evaluate H (strip line) g)) [Error e]
                    (IH _ _)) as (t & Ht & Hend).
        exists t. split; [exact Ht | exact Hend].
Qed.

(** *** Sessions that differ by a prompt *)

Lemma related_say (R : session -> session -> Prop) (m m' : M session) p g :
  (forall t t', R t t' -> R (say p t) (say p t')) ->
  related R (m g) (m' g) ->
  related R ((t <- m ;; ret (say p t)) g) ((t <- m' ;; ret (say p t)) g).
Proof.
  intros Hsay (Hi & Ha & t & t' & Ht & Ht' & HR).
  rewrite (bind_return _ _ _ _ Ht), (bind_return _ _ _ _ Ht'). simpl.
  split; [rewrite Hi; reflexivity|]. split; [exact Ha|].
  exists (say p t), (say p t'). auto.
Qed.

Lemma related_ret (R : session -> session -> Prop) t g :
  R t t -> related R (ret t g) (ret t g).
Proof.
  intros HR. split; [reflexivity|]. split; [reflexivity|].
  exists t, t. auto.
Qed.

Lemma related_attempt (R : session -> session -> Prop) {A}
    (m : M A) (k k' : outcome A -> M session) g :
  (forall o g', related R (k o g') (k' o g')) ->
  related R ((o <- attempt m ;; k o) g) ((o <- attempt m ;; k' o) g).
Proof.
  intros Hk. unfold bind, attempt. simpl.
  destruct (Hk (result (m g)) (after (m g)))
    as (Hi & Ha & t & t' & Ht & Ht' & HR).
  split; [rewrite Hi; reflexivity|]. split; [exact Ha|].
  exists t, t'. auto.
Qed.

(** Two ends of the input that give related sessions give related
    sessions after any common start. *)
Lemma repl_loop_related (H : Host) (C : Console)
    (R : session -> session -> Prop) l1 l2 :
  (forall p t t', R t t' -> R (say p t) (say p t')) ->
  (forall t, R t t) ->
  (forall h g, related R (repl_loop H C l1 h g) (repl_loop H C l2 h g)) ->
  forall pre h g,
    related R (repl_loop H C (pre ++ l1) h g) (repl_loop H C (pre ++ l2) h g).
Proof.
  intros Hsay Hrefl E pre.
  induction pre as [|x pre IH]; intros h g; [apply E|].
  cbn [app repl_loop]. apply related_say; [apply Hsay|].
  destruct (String.eqb (strip x) ""); [apply IH|].
  destruct (word_in (lower (strip x)) ["quit"; "q"; "exit"]);
    [apply related_ret; apply Hrefl|].
  destruct (word_in (lower (strip x)) ["help"; "?"]);
    [apply related_say; [apply Hsay | apply IH]|].
  destruct (String.eqb (lower (strip x)) "history").
  - destruct h as [|entry h]; [apply related_say; [apply Hsay | apply IH]|].
    destruct (show_entries C 1 (entry :: h)) as [shown [e|]];
      [apply related_ret; apply Hrefl
      |apply related_say; [apply Hsay | apply IH]].
  - apply related_attempt. intros [v|e] g'.
    + destruct (str_value C v);
        apply related_say; first [apply Hsay | apply IH].
    + apply related_say; [apply Hsay | apply IH].
Qed.

Lemma one_more_prompt_say p t t' :
  one_more_prompt t t' -> one_more_prompt (say p t) (say p t').
Proof.
  intros (He & Hx & Ho). split; [exact He|]. split; [exact Hx|].
  simpl. destruct Ho as [Ho|(o1 & o2 & Ho' & Ho)].
  - left. rewrite Ho. reflexivity.
  - right. exists (p ++ o1), o2. rewrite Ho, Ho', <- !app_assoc.
    split; reflexivity.
Qed.

Lemma one_more_prompt_refl t : one_more_prompt t t.
Proof. split; [reflexivity|]. split; [reflexivity|]. left. reflexivity. Qed.

Lemma one_more_prompt_prints t t' :
  one_more_prompt t t' -> prints (output t) = prints (output t').
Proof.
  intros (_ & _ & [Ho|(o1 & o2 & Ho' & Ho)]); [rewrite Ho; reflexivity|].
  rewrite Ho, Ho'. unfold prints. rewrite !filter_app. reflexivity.
Qed.

(** X10.  A line that is empty or made of white space only is skipped:
    the loop shows the prompt again and goes on with the next line, the
    history unchanged.  The session is the one without that line but for
    that one prompt: the same calls, the same history, the same way out
    and the same lines printed. *)
Theorem blank_lines_are_skipped
    (H : Host) (C : Console) (pre rest : list string) (s : string)
    (g : globals) :
  Forall (fun c => is_space c = true) (list_ascii_of_string s) ->
  (forall h g',
     repl_loop H C (s :: rest) h g'
       = (t <- repl_loop H C rest h ;; ret (say [Prompt "calc> "] t)) g') /\
  exists t t',
    result (repl H C (pre ++ s :: rest) g) = Return t /\
    result (repl H C (pre ++ rest) g) = Return t' /\
    invoked (repl H C (pre ++ s :: rest) g)
      = invoked (repl H C (pre ++ rest) g) /\
    after (repl H C (pre ++ s :: rest) g)
      = after (repl H C (pre ++ rest) g) /\
    entries t = entries t' /\
    escaped t = escaped t' /\
    prints (output t) = prints (output t') /\
    (output t = output t' \/
     exists o1 o2,
       output t' = o1 ++ o2 /\ output t = o1 ++ Prompt "calc> " :: o2).
Proof.
  intros Hs.
  assert (Hstep : forall h g',
    repl_loop H C (s :: rest) h g'
      = (t <- repl_loop H C rest h ;; ret (say [Prompt "calc> "] t)) g').
  { intros h g'. cbn [repl_loop]. rewrite (strip_blank s Hs). reflexivity. }
  split; [exact Hstep|].
  assert (Hrel : related one_more_prompt
            (repl H C (pre ++ s :: rest) g) (repl H C (pre ++ rest) g)).
  { unfold repl. apply related_say; [apply one_more_prompt_say|].
    apply repl_loop_related;
      [apply one_more_prompt_say | apply one_more_prompt_refl |].
    intros h g'. rewrite Hstep.
    destruct (repl_loop_ends H C rest h g') as (t' & Ht' & _).
    rewrite (bind_return _ _ _ _ Ht'). simpl.
    split; [apply app_nil_r|]. split; [reflexivity|].
    exists (say [Prompt "calc> "] t'), t'.
    split; [reflexivity|]. split; [exact Ht'|].
    split; [reflexivity|]. split; [reflexivity|].
    right. exists [], (output t'). split; reflexivity. }
  destruct Hrel as (Hi & Ha & t & t' & Ht & Ht' & HR).
  exists t, t'. split; [exact Ht|]. split; [exact Ht'|].
  split; [exact Hi|]. split; [exact Ha|].
  pose proof (one_more_prompt_prints t t' HR) as Hp.
  destruct HR as (He & Hx & Ho). auto.
Qed.

Lemma blank_lines_are_skipped_witness :
  Forall (fun c => is_space c = true) (list_ascii_of_string "   ") /\
  exists t t',
    result (repl Reference.bare Reference.console
              (["1+1"] ++ "   " :: ["history"]) module_globals) = Return t /\
    result (repl Reference.bare Reference.console
              (["1+1"] ++ ["history"]) module_globals) = Return t' /\
    prints (output t) = prints (output t').
Proof.
  assert (Hs : Forall (fun c => is_space c = true)
                 (list_ascii_of_string "   "))
    by (repeat constructor).
  split; [exact Hs|].
  destruct (proj2 (blank_lines_are_skipped Reference.bare Reference.console
                     ["1+1"] ["history"] "   " module_globals Hs))
    as (t & t' & Ht & Ht' & _ & _ & _ & _ & Hp & _).
  exists t, t'. split; [exact Ht|]. split; [exact Ht' | exact Hp].
Defined.

(** X11.  No exception of [evaluate] ever ends the loop of [repl].  A
    session starts with the banner and ends with a goodbye line, after a
    quit word or at the end of the input; the one other way out is an
    exception of [str()] on a history entry while the history command
    lists it, which nothing catches. *)
Theorem session_ends_with_goodbye
    (H : Host) (C : Console) (lines : list string) (g : globals) :
  exists t,
    result (repl H C lines g) = Return t /\
    (exists rest, output t = Text banner :: rest) /\
    ((escaped t = None /\
      exists bye, last (output t) = Some (Text bye) /\
                  (bye = "Goodbye" \/ bye = newline +:+ "Goodbye")) \/
     (exists e expr v,
        escaped t = Some e /\ In (expr, v) (entries t) /\
        str_value C v = Raise e)).
Proof.
  destruct (repl_loop_ends H C lines [] g) as (t & Ht & Hend).
  exists (say [Text banner] t). unfold repl.
  split; [apply result_bind_ret; exact Ht|].
  split; [exists (output t); reflexivity|].
  destruct Hend as [[Hesc (bye & Hl & Hb)]|Hend].
  - left. split; [exact Hesc|]. exists bye.
    split; [apply (last_app_Some [Text banner]); exact Hl | exact Hb].
  - right. exact Hend.
Qed.

Lemma not_a_command low :
  word_in low ["quit"; "q"; "exit"] = false ->
  word_in low ["help"; "?"] = false ->
  String.eqb low "history" = false ->
  word_in low command_words = false.
Proof.
  unfold word_in, command_words. cbn [existsb].
  intros H1 H2 H3.
  repeat (apply orb_false_elim in H1; destruct H1 as [? H1]).
  repeat (apply orb_false_elim in H2; destruct H2 as [? H2]).
  repeat match goal with E : String.eqb _ _ = false |- _ =>
    rewrite E; clear E end.
  reflexivity.
Qed.

(** The history at the end of a run: the one it started with, then one
    entry per line that was evaluated to a value. *)
Lemma repl_loop_history (H : Host) (C : Console) g lines : forall h t,
  result (repl_loop H C lines h g) = Return t ->
  exists new,
    entries t = h ++ new /\
    forall expr v, In (expr, v) new ->
      result (evaluate H expr g) = Return v /\
      expr <> "" /\
      word_in (lower expr) command_words = false /\
      exists line, In line lines /\ expr = strip line.
Proof.
  induction lines as [|line rest IH]; intros h t.
  - simpl. intros E. inversion E. exists []. simpl.
    split; [rewrite app_nil_r; reflexivity | intros ? ? []].
  - assert (Hrest : forall h' t',
      result (repl_loop H C rest h' g) = Return t' ->
      exists new,
        entries t' = h' ++ new /\
        forall expr v, In (expr, v) new ->
          result (evaluate H expr g) = Return v /\
          expr <> "" /\
          word_in (lower expr) command_words = false /\
          exists line', In line' (line :: rest) /\ expr = strip line').
    { intros h' t' Ht'. destruct (IH h' t' Ht') as (new & Hn & Hall).
      exists new. split; [exact Hn|]. intros expr v Hin.
      destruct (Hall expr v Hin) as (Hv & Hne & Hw & line' & Hl & Hs).
      repeat split; try assumption. exists line'.
      split; [right; exact Hl | exact Hs]. }
    assert (Hsay : forall h' pre t,
      result (bind (repl_loop H C rest h') (fun t' => ret (say pre t')) g)
        = Return t ->
      exists t', result (repl_loop H C rest h' g) = Return t' /\
                 entries t = entries t').
    { intros h' pre t0 E. apply result_bind_ret_inv in E.
      destruct E as (t' & Ht' & ->). exists t'. split; [exact Ht' | reflexivity]. }
    cbn [repl_loop]. intros Eprompt.
    apply result_bind_ret_inv in Eprompt.
    destruct Eprompt as (t0 & Et0 & ->).
    change (entries (say [Prompt "calc> "] t0)) with (entries t0).
    revert Et0. generalize t0. clear t0.
    destruct (String.eqb (strip line) "") eqn:Eblank; [apply Hrest|].
    destruct (word_in (lower (strip line)) ["quit"; "q"; "exit"]) eqn:Equit.
    { intros t0 E. inversion E. exists []. simpl.
      split; [rewrite app_nil_r; reflexivity | intros ? ? []]. }
    destruct (word_in (lower (strip line)) ["help"; "?"]) eqn:Ehelp.
    { intros t0 E. destruct (Hsay _ _ _ E) as (t' & Ht' & ->).
      apply Hrest. exact Ht'. }
    destruct (String.eqb (lower (strip line)) "history") eqn:Ehist.
    + destruct h as [|entry h].
      { intros t0 E. destruct (Hsay _ _ _ E) as (t' & Ht' & ->).
        apply Hrest. exact Ht'. }
      destruct (show_entries C 1 (entry :: h)) as [shown [e|]].
      * intros t0 E. inversion E. exists []. simpl.
        split; [rewrite app_nil_r; reflexivity | intros ? ? []].
      * intros t0 E. destruct (Hsay _ _ _ E) as (t' & Ht' & ->).
        apply Hrest. exact Ht'.
    + intros t0.
      rewrite (bind_attempt _ _ _ (preserving_evaluate H (strip line))).
      destruct (result (evaluate H (strip line) g)) as [v|e] eqn:Ev.
      * assert (Hnew : forall t',
          result (repl_loop H C rest (h ++ [(strip line, v)]) g) = Return t' ->
          exists new,
            entries t' = h ++ new /\
            forall expr v', In (expr, v') new ->
              result (evaluate H expr g) = Return v' /\
              expr <> "" /\
              word_in (lower expr) command_words = false /\
              exists line', In line' (line :: rest) /\ expr = strip line').
        { intros t' Ht'. destruct (Hrest _ _ Ht') as (new & Hn & Hall).
          exists ((strip line, v) :: new).
          split; [rewrite Hn, <- app_assoc; reflexivity|].
          intros expr v' [E|Hin]; [|apply Hall; exact Hin].
          inversion E; subst. split; [exact Ev|]. split.
          - intros Hempty. rewrite Hempty in Eblank. discriminate.
          - split; [apply not_a_command; assumption|].
            exists line. split; [left; reflexivity | reflexivity]. }
        destruct (str_value C v); intros E;
          destruct (Hsay _ _ _ E) as (t' & Ht' & ->); apply Hnew; exact Ht'.
      * intros E. destruct (Hsay _ _ _ E) as (t' & Ht' & ->).
        apply Hrest. exact Ht'.
Qed.

(** X12.  The history only ever holds evaluations that returned a value:
    each entry pairs a line of the input, stripped, that is neither
    empty nor a command, with the value that [evaluate] returns for it.
    Errors and commands leave no entry. *)
Theorem history_holds_returned_values
    (H : Host) (C : Console) (lines : list string) (g : globals)
    (t : session) (expr : string) (v : value) :
  result (repl H C lines g) = Return t ->
  In (expr, v) (entries t) ->
  result (evaluate H expr g) = Return v /\
  expr <> "" /\
  word_in (lower expr) command_words = false /\
  exists line, In line lines /\ expr = strip line.
Proof.
  unfold repl. intros Ht Hin. apply result_bind_ret_inv in Ht.
  destruct Ht as (t' & Ht' & ->).
  destruct (repl_loop_history H C g lines [] t' Ht') as (new & Hn & Hall).
  apply Hall. simpl in Hin, Hn. rewrite <- Hn. exact Hin.
Qed.

Lemma history_holds_returned_values_witness :
  result (repl Reference.bare Reference.console
            ["1/0"; "help"; " 6 * 7 "; "q"] module_globals)
    = Return (Session
        [Text banner;
         Prompt "calc> "; Error ZeroDivisionError;
         Prompt "calc> "; Text help_text;
         Prompt "calc> "; Result "42";
         Prompt "calc> "; Text "Goodbye"]
        [("6 * 7", VInt 42)] None) /\
  In ("6 * 7", VInt 42) [("6 * 7", VInt 42)] /\
  result (evaluate Reference.bare "6 * 7" module_globals) = Return (VInt 42).
Proof.
  assert (Ht : result (repl Reference.bare Reference.console
                 ["1/0"; "help"; " 6 * 7 "; "q"] module_globals)
    = Return (Session
        [Text banner;
         Prompt "calc> "; Error ZeroDivisionError;
         Prompt "calc> "; Text help_text;
         Prompt "calc> "; Result "42";
         Prompt "calc> "; Text "Goodbye"]
        [("6 * 7", VInt 42)] None))
    by (vm_compute; reflexivity).
  split; [exact Ht|]. split; [left; reflexivity|].
  exact (proj1 (history_holds_returned_values Reference.bare
                  Reference.console _ module_globals _ "6 * 7" (VInt 42)
                  Ht (or_introl eq_refl))).
Defined.

Lemma show_entries_listing (C : Console) history : forall i shown,
  show_entries C i history = (shown, None) ->
  length shown = length history /\
  forall k expr v, nth_error history k = Some (expr, v) ->
    exists text,
      str_value C v = Return text /\
      nth_error shown k = Some (Entry (i + k) expr text).
Proof.
  induction history as [|[expr v] history IH]; intros i shown; simpl.
  - intros E. inversion E. split; [reflexivity|].
    intros [|k] ? ?; discriminate.
  - destruct (str_value C v) as [text|e] eqn:Ev; [|discriminate].
    destruct (show_entries C (S i) history) as [lines e'] eqn:Es.
    intros E. inversion E; subst.
    destruct (IH _ _ Es) as [Hlen Hnth].
    split; [simpl; rewrite Hlen; reflexivity|].
    intros [|k] expr' v'; simpl.
    + intros E'. inversion E'; subst. exists text.
      split; [exact Ev|]. rewrite Nat.add_0_r. reflexivity.
    + intros E'. destruct (Hnth k expr' v' E') as (text' & Hs & Hn).
      exists text'. split; [exact Hs|].
      rewrite Hn. f_equal. f_equal. lia.
Qed.

(** X13.  The history command, when every recorded value can be shown,
    prints after the prompt one line per entry, in the order the entries
    were recorded and numbered from 1, each with the text that was
    evaluated and its value; the loop then goes on with the history
    unchanged. *)
Theorem history_command_lists_entries
    (H : Host) (C : Console) (line : string) (rest : list string)
    (h : list (string * value)) (g : globals) :
  lower (strip line) = "history" ->
  h <> [] ->
  snd (show_entries C 1 h) = None ->
  exists shown,
    repl_loop H C (line :: rest) h g
      = (t <- repl_loop H C rest h ;;
         ret (say (Prompt "calc> " :: shown) t)) g /\
    length shown = length h /\
    forall k expr v, nth_error h k = Some (expr, v) ->
      exists text,
        str_value C v = Return text /\
        nth_error shown k = Some (Entry (S k) expr text).
Proof.
  intros Hcmd Hne Hshow.
  destruct (show_entries C 1 h) as [shown e] eqn:Es.
  simpl in Hshow. subst e. exists shown.
  destruct (show_entries_listing C h 1 shown Es) as [Hlen Hnth].
  split; [|split; [exact Hlen | exact Hnth]].
  change (Prompt "calc> " :: shown) with ([Prompt "calc> "] ++ shown).
  rewrite <- (bind_say_say (repl_loop H C rest h) [Prompt "calc> "] shown g).
  cbn [repl_loop]. apply bind_cong_l. rewrite Hcmd.
  change (String.eqb (strip line) "")
    with (String.eqb (strip line) EmptyString).
  destruct (String.eqb (strip line) EmptyString) eqn:Eblank.
  { apply String.eqb_eq in Eblank. rewrite Eblank in Hcmd. discriminate. }
  change (word_in "history" ["quit"; "q"; "exit"]) with false.
  change (word_in "history" ["help"; "?"]) with false.
  change (String.eqb "history" "history") with true. cbv iota.
  destruct h as [|entry h]; [congruence|].
  rewrite Es. reflexivity.
Qed.

Lemma history_command_lists_entries_witness :
  exists shown,
    repl_loop Reference.bare Reference.console [" History "; "q"]
        [("6 * 7", VInt 42); ("1, 2", VTuple [VInt 1; VInt 2])]
        module_globals
      = (t <- repl_loop Reference.bare Reference.console ["q"]
                [("6 * 7", VInt 42); ("1, 2", VTuple [VInt 1; VInt 2])] ;;
         ret (say (Prompt "calc> " :: shown) t)) module_globals /\
    nth_error shown 1 = Some (Entry 2 "1, 2" "(1, 2)").
Proof.
  destruct (history_command_lists_entries Reference.bare Reference.console
              " History " ["q"]
              [("6 * 7", VInt 42); ("1, 2", VTuple [VInt 1; VInt 2])]
              module_globals)
    as (shown & Hloop & _ & Hnth);
    [reflexivity | discriminate | reflexivity |].
  exists shown. split; [exact Hloop|].
  destruct (Hnth 1%nat "1, 2" (VTuple [VInt 1; VInt 2]) eq_refl)
    as (text & Hs & Hn).
  rewrite Hn. vm_compute in Hs. inversion Hs. reflexivity.
Defined.

(** X14.  With arguments on the command line the program never reads
    the terminal and never ends with an exception: it prints one item
    and exits with status 0 when [evaluate] returns a value that can be
    shown, which is then what is printed; otherwise it prints the error
    and exits with status 1. *)
Theorem command_line_status
    (H : Host) (C : Console) (argv lines : list string) (g : globals) :
  (1 < length argv)%nat ->
  exists p,
    result (main H C argv lines g) = Return p /\
    main H C argv lines g = main H C argv [] g /\
    uncaught p = None /\
    ((status p = 0 /\
      exists v shown,
        result (evaluate H (str_join " " (tl argv)) g) = Return v /\
        str_value C v = Return shown /\
        stdout p = [Result shown]) \/
     (status p = 1 /\
      exists e,
        stdout p = [Error e] /\
        (result (evaluate H (str_join " " (tl argv)) g) = Raise e \/
         exists v,
           result (evaluate H (str_join " " (tl argv)) g) = Return v /\
           str_value C v = Raise e))).
Proof.
  intros Hargs. apply Nat.ltb_lt in Hargs.
  unfold main. rewrite Hargs. unfold bind at 1, attempt. simpl.
  destruct (result (evaluate H (str_join " " (tl argv)) g)) as [v|e] eqn:Ev.
  - destruct (str_value C v) as [shown|e] eqn:Es; simpl.
    + eexists. split; [reflexivity|]. split; [reflexivity|].
      split; [reflexivity|]. left. split; [reflexivity|].
      exists v, shown. auto.
    + eexists. split; [reflexivity|]. split; [reflexivity|].
      split; [reflexivity|]. right. split; [reflexivity|].
      exists e. split; [reflexivity|]. right. exists v. auto.
  - simpl. eexists. split; [reflexivity|]. split; [reflexivity|].
    split; [reflexivity|]. right. split; [reflexivity|].
    exists e. split; [reflexivity|]. left. reflexivity.
Qed.

Lemma command_line_status_witness :
  exists p,
    result (main Reference.bare Reference.console ["calculator.py"; "1/0"]
              ["2"] module_globals) = Return p /\
    status p = 1 /\ stdout p = [Error ZeroDivisionError].
Proof.
  destruct (command_line_status Reference.bare Reference.console
              ["calculator.py"; "1/0"] ["2"] module_globals)
    as (p & Hp & _ & _ & Hst); [simpl; lia|].
  exists p. split; [exact Hp|].
  vm_compute in Hp. inversion Hp. split; reflexivity.
Defined.

Lemma append_assoc (a b c : string) : (a +:+ b) +:+ c = a +:+ (b +:+ c).
Proof.
  induction a as [|x a IH]; [reflexivity|].
  change (String x ((a +:+ b) +:+ c) = String x (a +:+ (b +:+ c))).
  f_equal. exact IH.
Qed.

Lemma str_join_merge sep a b rest :
  str_join sep (a :: b :: rest) = str_join sep ((a +:+ sep +:+ b) :: rest).
Proof.
  destruct rest as [|c rest]; [reflexivity|].
  change (str_join sep (a :: b :: c :: rest))
    with (a +:+ sep +:+ b +:+ sep +:+ str_join sep (c :: rest)).
  change (str_join sep ((a +:+ sep +:+ b) :: c :: rest))
    with ((a +:+ sep +:+ b) +:+ sep +:+ str_join sep (c :: rest)).
  rewrite !append_assoc. reflexivity.
Qed.

(** X15.  The command line is one expression however the shell splits
    it: two neighbouring arguments give the same run as the one argument
    made of them with a space in between. *)
Theorem command_line_arguments_are_joined
    (H : Host) (C : Console) (prog a b : string) (rest lines : list string)
    (g : globals) :
  main H C (prog :: a :: b :: rest) lines g
    = main H C (prog :: (a +:+ " " +:+ b) :: rest) lines g.
Proof.
  unfold main. cbn [length Nat.ltb Nat.leb tl].
  rewrite str_join_merge. reflexivity.
Qed.

(** X16.  A line typed at the prompt that is not blank and is no command
    prints what the command line prints for the same text, stripped:
    between the banner with the first prompt and the prompt with the
    goodbye of the end of the input, the session shows the output of
    that run.  When that run exits with status 0 the line is recorded in
    the history, and when nothing is recorded it exits with status 1 (a
    value whose [str()] fails is recorded although its run exits with
    status 1). *)
Theorem prompt_and_command_line_agree
    (H : Host) (C : Console) (prog line : string) (g : globals)
    (t : session) (p : process) :
  strip line <> "" ->
  word_in (lower (strip line)) command_words = false ->
  result (repl H C [line] g) = Return t ->
  result (main H C [prog; strip line] [] g) = Return p ->
  output t
    = Text banner :: Prompt "calc> " :: stdout p
      ++ [Prompt "calc> "; Text (newline +:+ "Goodbye")] /\
  prints (output t)
    = Text banner :: stdout p ++ [Text (newline +:+ "Goodbye")] /\
  escaped t = None /\
  (status p = 0 -> exists v, entries t = [(strip line, v)]) /\
  (entries t = [] -> status p = 1).
Proof.
  intros Hne Hcmd. unfold repl, main.
  cbn [length Nat.ltb Nat.leb tl str_join repl_loop].
  destruct (String.eqb (strip line) "") eqn:Eblank.
  { apply String.eqb_eq in Eblank. contradiction. }
  unfold word_in, command_words in Hcmd. cbn [existsb] in Hcmd.
  repeat (apply orb_false_elim in Hcmd; destruct Hcmd as [? Hcmd]).
  unfold word_in. cbn [existsb].
  repeat match goal with E : String.eqb _ _ = false |- _ =>
    rewrite E; clear E end.
  cbn [orb]. unfold bind, attempt, ret. simpl.
  destruct (result (evaluate H (strip line) g)) as [v|e].
  - destruct (str_value C v); simpl; intros Et Ep;
      inversion Et; inversion Ep; subst; simpl;
      (split; [reflexivity|]); (split; [reflexivity|]);
      (split; [reflexivity|]); split;
      try discriminate; eauto.
  - simpl. intros Et Ep. inversion Et; inversion Ep; subst; simpl.
    split; [reflexivity|]. split; [reflexivity|]. split; [reflexivity|].
    split; [discriminate | reflexivity].
Qed.

Lemma prompt_and_command_line_agree_witness :
  output (Session [Text banner; Prompt "calc> "; Result "14";
                   Prompt "calc> "; Text (newline +:+ "Goodbye")]
            [("2 + 3*4", VInt 14)] None)
    = Text banner :: Prompt "calc> " :: stdout (Process [Result "14"] 0 None)
        ++ [Prompt "calc> "; Text (newline +:+ "Goodbye")].
Proof.
  refine (proj1 (prompt_and_command_line_agree Reference.bare
                   Reference.console "calculator.py" "  2 + 3*4 "
                   module_globals _ _ _ _ _ _)).
  - vm_compute. discriminate.
  - vm_compute. reflexivity.
  - vm_compute. reflexivity.
  - vm_compute. reflexivity.
Defined.
